(** * CurvedText: glyph layout along a circular arc

    A shallow embedding of [src/shapes/CurvedText.ts] and the properties of
    its layout engine.

    Numbers.  JavaScript numbers are idealised as real numbers: [Math.sin],
    [Math.cos] and [Math.PI] are [sin], [cos] and [PI] of the standard
    library, and the arithmetic operators are the field operations of [R],
    written with the association and precedence the source has.  NaN, the
    infinities and rounding are outside the model.  An attribute that may be
    absent ([undefined]) is an [option].

    Strings.  A string is a sequence of character code units; a glyph is a
    string of length one.

    Effects.  A method that mutates the shape takes the shape and returns
    the new one; a method that can throw returns a [Completion]. *)

From Stdlib Require Import Reals Lra Lia List String Ascii Arith Bool.
Import ListNotations.

Local Open Scope R_scope.

(** ** JavaScript operators *)

Module Js.

Inductive Error : Type :=
| TypeError.

(** The outcome of a call: a normal return or a thrown exception. *)
Inductive Completion (A : Type) : Type :=
| Normal (a : A)
| Throw (e : Error).

Arguments Normal {A} a.
Arguments Throw {A} e.

Definition bind {A B : Type} (c : Completion A) (k : A -> Completion B)
  : Completion B :=
  match c with
  | Normal a => k a
  | Throw e => Throw e
  end.

(** [a > b], [a < b] and [a === b] on numbers. *)
Definition gt (a b : R) : bool := if Rgt_dec a b then true else false.
Definition lt (a b : R) : bool := if Rlt_dec a b then true else false.
Definition strict_eq (a b : R) : bool := if Req_dec_T a b then true else false.

(** [a > b] and [a < b] where [a] is read with [getAttr] and may be
    [undefined]: [undefined] converts to NaN and every comparison with it
    is false. *)
Definition gt_attr (a : option R) (b : R) : bool :=
  match a with
  | Some v => gt v b
  | None => false
  end.

Definition lt_attr (a : option R) (b : R) : bool :=
  match a with
  | Some v => lt v b
  | None => false
  end.

(** [a || d] for a numeric attribute: [undefined] and [0] are falsy. *)
Definition or_number (a : option R) (d : R) : R :=
  match a with
  | Some v => if Req_dec_T v 0 then d else v
  | None => d
  end.

(** [a || d] for a string attribute: [undefined] and the empty string are
    falsy. *)
Definition or_string (a : option string) (d : string) : string :=
  match a with
  | Some EmptyString => d
  | Some v => v
  | None => d
  end.

(** [!a] for an attribute holding an object (an array, an image): only
    [undefined] is falsy. *)
Definition not_object {A : Type} (a : option A) : bool :=
  match a with
  | Some _ => false
  | None => true
  end.

(** [s.substring(a, b)]: the code units from [min a b] up to, and not
    including, [max a b], both clamped to the length of [s]. *)
Definition substring (a b : nat) (s : string) : string :=
  String.substring (Nat.min a b) (Nat.max a b - Nat.min a b) s.

(** [s[i]] for [i] below the length of [s]: the string of that one code
    unit. *)
Definition at_index (i : nat) (s : string) : string :=
  String.substring i 1 s.

(** [for (let i = from; i < to; i++) acc = body(i, acc)]. *)
Definition for_loop {A : Type} (from to : nat) (body : nat -> A -> A)
  (init : A) : A :=
  fold_left (fun acc i => body i acc) (seq from (to - from)) init.

(** [a.push(v)]. *)
Definition push {A : Type} (a : list A) (v : A) : list A := a ++ [v].

End Js.

Notation "x <- c ;; k" := (Js.bind c (fun x => k))
  (at level 61, c at next level, right associativity).

(** ** Data model *)

(** One entry of the [text] array built by [computeText]. *)
Module Glyph.
Record t : Type := mk
  { x : R;
    y : R;
    rotation : R;
    glyph : string }.
End Glyph.

(** The [bounds] object literal of [computeText], [oldBounds] in
    [updateBounds]. *)
Module Bounds.
Record t : Type := mk
  { x : R;
    y : R;
    width : R;
    height : R;
    rotation : R;
    scaleX : R;
    scaleY : R }.
End Bounds.

(** The [textBounds] object of [updateBounds]. *)
Module TextBounds.
Record t : Type := mk
  { minX : R;
    minY : R;
    maxX : R;
    maxY : R }.
End TextBounds.

(** The [newBounds] object of [updateBounds]. *)
Module NewBounds.
Record t : Type := mk
  { x : R;
    y : R;
    width : R;
    height : R }.
End NewBounds.

(** The object returned by [getTextMetrics]. *)
Module TextMetrics.
Record t : Type := mk
  { text : string;
    xOffsets : list R;
    width : R }.
End TextMetrics.

Module CurvePath.
Record t : Type := mk
  { cx : R;
    cy : R;
    radius : R;
    color : string }.
End CurvePath.

(** The object stored in the [_computedText] attribute. *)
Module ComputedText.
Record t : Type := mk
  { curvePath : CurvePath.t;
    textMetrics : TextMetrics.t;
    curveText : list Glyph.t }.
End ComputedText.

(** An entry of a gradient colour-stop array. *)
Definition ColorStop : Type := (R + string)%type.

(** A handle on an image element. *)
Inductive Image : Type :=
| ImageElement (id : nat).

(** The attribute object of the shape.  It starts as the construction
    config ([CurvedTextConfig], with the keys of [ShapeConfig] this file
    reads) and holds [_computedText] once the layout has run; every key may
    be absent. *)
Module Attrs.
Record t : Type := mk
  { x : option R;
    y : option R;
    width : option R;
    height : option R;
    rotation : option R;
    scaleX : option R;
    scaleY : option R;
    fill : option string;
    fillLinearGradientColorStops : option (list ColorStop);
    fillRadialGradientColorStops : option (list ColorStop);
    fillPatternImage : option Image;
    text : option string;
    fontFamily : option string;
    fontSize : option R;
    fontStyle : option string;
    fontVariant : option string;
    showCurvePath : option bool;
    curveRadius : option R;
    curveDirection : option R;
    _computedText : option ComputedText.t }.

(** The empty object [{}]. *)
Definition empty : t :=
  mk None None None None None None None None None None None None None None
     None None None None None None.
End Attrs.

Definition Shape : Type := Attrs.t.

(** ** Attribute access *)

(** Modelled from the spec: the getters and setters of the position, size,
    rotation and scale attributes belong to the host scene-graph node, which
    is not in [src]; by section 6 the attribute system is a plain mapping
    from attribute name to value.  A getter returns the stored value, and
    the host's default (0, and 1 for a scale) when the key is absent; a
    setter stores the value. *)
Definition getX (this : Shape) : R :=
  match Attrs.x this with Some v => v | None => 0 end.

Definition getY (this : Shape) : R :=
  match Attrs.y this with Some v => v | None => 0 end.

Definition getWidth (this : Shape) : R :=
  match Attrs.width this with Some v => v | None => 0 end.

Definition getHeight (this : Shape) : R :=
  match Attrs.height this with Some v => v | None => 0 end.

Definition getRotation (this : Shape) : R :=
  match Attrs.rotation this with Some v => v | None => 0 end.

Definition getScaleX (this : Shape) : R :=
  match Attrs.scaleX this with Some v => v | None => 1 end.

Definition getScaleY (this : Shape) : R :=
  match Attrs.scaleY this with Some v => v | None => 1 end.

(** [Factory.addGetterSetter(CurvedText, 'fontFamily', 'Arial')] and the
    four declarations after it: the getter returns the default when the
    attribute is absent. *)
Definition getFontFamily (this : Shape) : string :=
  match Attrs.fontFamily this with Some v => v | None => "Arial"%string end.

Definition getFontSize (this : Shape) : R :=
  match Attrs.fontSize this with Some v => v | None => 12 end.

Definition getFontStyle (this : Shape) : string :=
  match Attrs.fontStyle this with Some v => v | None => "normal"%string end.

Definition getFontVariant (this : Shape) : string :=
  match Attrs.fontVariant this with Some v => v | None => "normal"%string end.

Definition getText (this : Shape) : string :=
  match Attrs.text this with Some v => v | None => EmptyString end.

Definition setX (this : Shape) (v : R) : Shape :=
  Attrs.mk (Some v) (Attrs.y this) (Attrs.width this) (Attrs.height this)
    (Attrs.rotation this) (Attrs.scaleX this) (Attrs.scaleY this)
    (Attrs.fill this) (Attrs.fillLinearGradientColorStops this)
    (Attrs.fillRadialGradientColorStops this) (Attrs.fillPatternImage this)
    (Attrs.text this) (Attrs.fontFamily this) (Attrs.fontSize this)
    (Attrs.fontStyle this) (Attrs.fontVariant this) (Attrs.showCurvePath this)
    (Attrs.curveRadius this) (Attrs.curveDirection this)
    (Attrs._computedText this).

Definition setY (this : Shape) (v : R) : Shape :=
  Attrs.mk (Attrs.x this) (Some v) (Attrs.width this) (Attrs.height this)
    (Attrs.rotation this) (Attrs.scaleX this) (Attrs.scaleY this)
    (Attrs.fill this) (Attrs.fillLinearGradientColorStops this)
    (Attrs.fillRadialGradientColorStops this) (Attrs.fillPatternImage this)
    (Attrs.text this) (Attrs.fontFamily this) (Attrs.fontSize this)
    (Attrs.fontStyle this) (Attrs.fontVariant this) (Attrs.showCurvePath this)
    (Attrs.curveRadius this) (Attrs.curveDirection this)
    (Attrs._computedText this).

Definition setWidth (this : Shape) (v : R) : Shape :=
  Attrs.mk (Attrs.x this) (Attrs.y this) (Some v) (Attrs.height this)
    (Attrs.rotation this) (Attrs.scaleX this) (Attrs.scaleY this)
    (Attrs.fill this) (Attrs.fillLinearGradientColorStops this)
    (Attrs.fillRadialGradientColorStops this) (Attrs.fillPatternImage this)
    (Attrs.text this) (Attrs.fontFamily this) (Attrs.fontSize this)
    (Attrs.fontStyle this) (Attrs.fontVariant this) (Attrs.showCurvePath this)
    (Attrs.curveRadius this) (Attrs.curveDirection this)
    (Attrs._computedText this).

Definition setHeight (this : Shape) (v : R) : Shape :=
  Attrs.mk (Attrs.x this) (Attrs.y this) (Attrs.width this) (Some v)
    (Attrs.rotation this) (Attrs.scaleX this) (Attrs.scaleY this)
    (Attrs.fill this) (Attrs.fillLinearGradientColorStops this)
    (Attrs.fillRadialGradientColorStops this) (Attrs.fillPatternImage this)
    (Attrs.text this) (Attrs.fontFamily this) (Attrs.fontSize this)
    (Attrs.fontStyle this) (Attrs.fontVariant this) (Attrs.showCurvePath this)
    (Attrs.curveRadius this) (Attrs.curveDirection this)
    (Attrs._computedText this).

(** [config.fill = v]. *)
Definition setFill (this : Shape) (v : string) : Shape :=
  Attrs.mk (Attrs.x this) (Attrs.y this) (Attrs.width this) (Attrs.height this)
    (Attrs.rotation this) (Attrs.scaleX this) (Attrs.scaleY this)
    (Some v) (Attrs.fillLinearGradientColorStops this)
    (Attrs.fillRadialGradientColorStops this) (Attrs.fillPatternImage this)
    (Attrs.text this) (Attrs.fontFamily this) (Attrs.fontSize this)
    (Attrs.fontStyle this) (Attrs.fontVariant this) (Attrs.showCurvePath this)
    (Attrs.curveRadius this) (Attrs.curveDirection this)
    (Attrs._computedText this).

(** [this._setAttr(TEXT, str)]. *)
Definition _setAttr_text (this : Shape) (v : string) : Shape :=
  Attrs.mk (Attrs.x this) (Attrs.y this) (Attrs.width this) (Attrs.height this)
    (Attrs.rotation this) (Attrs.scaleX this) (Attrs.scaleY this)
    (Attrs.fill this) (Attrs.fillLinearGradientColorStops this)
    (Attrs.fillRadialGradientColorStops this) (Attrs.fillPatternImage this)
    (Some v) (Attrs.fontFamily this) (Attrs.fontSize this)
    (Attrs.fontStyle this) (Attrs.fontVariant this) (Attrs.showCurvePath this)
    (Attrs.curveRadius this) (Attrs.curveDirection this)
    (Attrs._computedText this).

(** [this.setAttr('_computedText', v)]. *)
Definition setAttr__computedText (this : Shape) (v : ComputedText.t) : Shape :=
  Attrs.mk (Attrs.x this) (Attrs.y this) (Attrs.width this) (Attrs.height this)
    (Attrs.rotation this) (Attrs.scaleX this) (Attrs.scaleY this)
    (Attrs.fill this) (Attrs.fillLinearGradientColorStops this)
    (Attrs.fillRadialGradientColorStops this) (Attrs.fillPatternImage this)
    (Attrs.text this) (Attrs.fontFamily this) (Attrs.fontSize this)
    (Attrs.fontStyle this) (Attrs.fontVariant this) (Attrs.showCurvePath this)
    (Attrs.curveRadius this) (Attrs.curveDirection this)
    (Some v).

(** ** Font descriptor *)

(** White space removed by [trim], among the code units below 256. *)
Definition is_white_space (c : ascii) : bool :=
  let n := nat_of_ascii c in
  ((9 <=? n)%nat && (n <=? 13)%nat) || (n =? 32)%nat || (n =? 160)%nat.

(** [s.split(sep)] for a one-character separator. *)
Fixpoint split (sep : ascii) (s : string) : list string :=
  match s with
  | EmptyString => [EmptyString]
  | String c s' =>
      if Ascii.eqb c sep then EmptyString :: split sep s'
      else match split sep s' with
           | [] => [String c EmptyString]
           | w :: ws => String c w :: ws
           end
  end.

Fixpoint trim_start (s : string) : string :=
  match s with
  | EmptyString => EmptyString
  | String c s' => if is_white_space c then trim_start s' else s
  end.

Fixpoint trim_end (s : string) : string :=
  match s with
  | EmptyString => EmptyString
  | String c s' =>
      match trim_end s' with
      | EmptyString => if is_white_space c then EmptyString
                       else String c EmptyString
      | t => String c t
      end
  end.

(** [s.trim()]. *)
Definition trim (s : string) : string := trim_end (trim_start s).

(** [s.indexOf(c) >= 0]. *)
Fixpoint has_char (c : ascii) (s : string) : bool :=
  match s with
  | EmptyString => false
  | String d s' => Ascii.eqb d c || has_char c s'
  end.

Definition double_quote : ascii := "034"%char.
Definition single_quote : ascii := "039"%char.

Definition normalizeFontFamily (fontFamily : string) : string :=
  String.concat ", "
    (map (fun family =>
            let family := trim family in
            let hasSpace := has_char " " family in
            let hasQuotes :=
              has_char double_quote family || has_char single_quote family in
            if hasSpace && negb hasQuotes
            then (String double_quote family
                    ++ String double_quote EmptyString)%string
            else family)
         (split "," fontFamily)).

(** ** Construction config *)

Definition checkDefaultFill (config : option Attrs.t) : Attrs.t :=
  let config := match config with Some c => c | None => Attrs.empty end in
  if Js.not_object (Attrs.fillLinearGradientColorStops config)
     && Js.not_object (Attrs.fillRadialGradientColorStops config)
     && Js.not_object (Attrs.fillPatternImage config)
  then setFill config (Js.or_string (Attrs.fill config) "black")
  else config.

(** Modelled from the spec: the inherited [Shape] constructor reached by
    [super(config)] is not in [src]; by section 6 it stores every
    configured key as the attribute of the same name. *)
Definition Shape_super (config : Attrs.t) : Shape := config.

(** ** Drawing context *)

(** The drawing context is the host's; it is modelled by the sequence of
    the calls made on it and of the assignments to its properties, the
    earliest first. *)
Module Canvas.

Inductive Call : Type :=
| setAttr_fillStyle (v : option string)
| setAttr_font (v : string)
| setAttr_textBaseline (v : string)
| setAttr_textAlign (v : string)
| set_strokeStyle (v : string)
| set_fillStyle (v : string)
| save
| restore
| translate (x y : R)
| rotate (angle : R)
| fillText (text : string) (x y : R)
| beginPath
| closePath
| arc (x y radius startAngle endAngle : R)
| rect (x y width height : R)
| stroke
| fill
| fillStrokeShape (shape : Shape).

Definition Context : Type := list Call.

(** One more call on the context. *)
Definition call (context : Context) (c : Call) : Context := context ++ [c].

End Canvas.

(** [a !== 0] where [a] is read with [getAttr]: [undefined] is not [0]. *)
Definition strict_neq_attr (a : option R) (b : R) : bool :=
  match a with
  | Some v => negb (Js.strict_eq v b)
  | None => true
  end.

(** The truth value of a boolean attribute: [undefined] is falsy. *)
Definition truthy_bool (a : option bool) : bool :=
  match a with
  | Some v => v
  | None => false
  end.

(** ** Sample inputs *)

(** A metrics provider without kerning: every character is 10 wide in
    every font. *)
Definition monospace (font s : string) : R := 10 * INR (String.length s).

(** A number printer for shapes of font size 12. *)
Definition print_12 (n : R) : string := "12"%string.

(** The config [{ text, curveRadius, curveDirection, rotation }]. *)
Definition sample (text : string) (curveRadius curveDirection rotation : option R)
  : Attrs.t :=
  Attrs.mk None None None None rotation None None None None None None
    (Some text) None None None None None curveRadius curveDirection None.

(** The config [{ text: 'A', fill: '' }]. *)
Definition config_empty_fill : Attrs.t :=
  Attrs.mk None None None None None None None (Some EmptyString) None None
    None (Some "A"%string) None None None None None None None None.

(** The config [{ text: 'A', fill: 'green' }]. *)
Definition config_green_fill : Attrs.t :=
  Attrs.mk None None None None None None None (Some "green"%string) None None
    None (Some "A"%string) None None None None None None None None.

(** The config [{ text: 'AB', showCurvePath: true, curveDirection: 1 }],
    without [curveRadius]. *)
Definition config_guide : Attrs.t :=
  Attrs.mk None None None None None None None None None None None
    (Some "AB"%string) None None None None (Some true) None (Some 1) None.

(** ** The class *)

Section CurvedText.

(** The text measurement service: [measureText font s] is
    [context.measureText(s).width] on a fresh 2D context whose [font] was
    set to [font] (alignment and baseline do not change a width). *)
Variable measureText : string -> string -> R.

(** The conversion of a number to a string, as in [this.fontSize() + 'px ']
    and [text + '']. *)
Variable numberToString : R -> string.

Definition _getContextFont (this : Shape) : string :=
  (getFontStyle this ++ " " ++ getFontVariant this ++ " "
   ++ (numberToString (getFontSize this) ++ "px ")
   ++ normalizeFontFamily (getFontFamily this))%string.

(** An index read out of range yields [undefined] in the source; the two
    loops below only read indices that are in range
    ([getTextMetrics_reads_in_range]), so the default of [nth] is never
    returned. *)
Definition getTextMetrics (this : Shape) : TextMetrics.t :=
  let font := _getContextFont this in
  let text := getText this in
  let glyphs : list string := [] in
  let xOffsets := [measureText font (Js.substring 0 1 text) / 2] in
  let glyphs :=
    Js.for_loop 0 (String.length text)
      (fun i glyphs => Js.push glyphs (Js.substring i (i + 1) text))
      glyphs in
  let xOffsets :=
    Js.for_loop 1 (String.length text)
      (fun i xOffsets =>
         let pairTextWidth :=
           measureText font (Js.substring (i - 1) (i + 1) text) in
         let prevCharWidth :=
           measureText font (nth (i - 1) glyphs EmptyString) in
         let currentCharWidth :=
           measureText font (nth i glyphs EmptyString) in
         Js.push xOffsets
           (nth (i - 1) xOffsets 0 + pairTextWidth
            - prevCharWidth / 2 - currentCharWidth / 2))
      xOffsets in
  {| TextMetrics.text := text;
     TextMetrics.xOffsets := xOffsets;
     TextMetrics.width := measureText font text |}.

(** [text[0].x] on an empty array reads a property of [undefined] and
    throws a TypeError before anything is written. *)
Definition updateBounds (this : Shape) (oldBounds : Bounds.t)
  (text : list Glyph.t) : Js.Completion Shape :=
  match text with
  | [] => Js.Throw Js.TypeError
  | text_0 :: _ =>
      let textBounds :=
        {| TextBounds.minX := Glyph.x text_0;
           TextBounds.minY := Glyph.y text_0;
           TextBounds.maxX := Glyph.x text_0;
           TextBounds.maxY := Glyph.x text_0 |} in
      let textBounds :=
        Js.for_loop 0 (List.length text)
          (fun i textBounds =>
             let text_i := nth i text text_0 in
             let textBounds :=
               if Js.gt (TextBounds.minX textBounds) (Glyph.x text_i)
               then {| TextBounds.minX := Glyph.x text_i;
                       TextBounds.minY := TextBounds.minY textBounds;
                       TextBounds.maxX := TextBounds.maxX textBounds;
                       TextBounds.maxY := TextBounds.maxY textBounds |}
               else textBounds in
             let textBounds :=
               if Js.lt (TextBounds.maxX textBounds) (Glyph.x text_i)
               then {| TextBounds.minX := TextBounds.minX textBounds;
                       TextBounds.minY := TextBounds.minY textBounds;
                       TextBounds.maxX := Glyph.x text_i;
                       TextBounds.maxY := TextBounds.maxY textBounds |}
               else textBounds in
             let textBounds :=
               if Js.gt (TextBounds.minY textBounds) (Glyph.y text_i)
               then {| TextBounds.minX := TextBounds.minX textBounds;
                       TextBounds.minY := Glyph.y text_i;
                       TextBounds.maxX := TextBounds.maxX textBounds;
                       TextBounds.maxY := TextBounds.maxY textBounds |}
               else textBounds in
             let textBounds :=
               if Js.lt (TextBounds.maxY textBounds) (Glyph.y text_i)
               then {| TextBounds.minX := TextBounds.minX textBounds;
                       TextBounds.minY := TextBounds.minY textBounds;
                       TextBounds.maxX := TextBounds.maxX textBounds;
                       TextBounds.maxY := Glyph.y text_i |}
               else textBounds in
             textBounds)
          textBounds in
      let newBounds :=
        {| NewBounds.x := 0;
           NewBounds.y := 0;
           NewBounds.width :=
             TextBounds.maxX textBounds - TextBounds.minX textBounds
             + getFontSize this;
           NewBounds.height :=
             TextBounds.maxY textBounds - TextBounds.minY textBounds
             + getFontSize this |} in
      let x :=
        (Bounds.width oldBounds * Bounds.scaleX oldBounds
         - NewBounds.width newBounds * Bounds.scaleX oldBounds) / 2 in
      let y :=
        if Js.lt_attr (Attrs.curveDirection this) 0
        then Bounds.height oldBounds * Bounds.scaleY oldBounds
             - NewBounds.height newBounds * Bounds.scaleY oldBounds
        else 0 in
      let this := setWidth this (NewBounds.width newBounds) in
      let this := setHeight this (NewBounds.height newBounds) in
      let this :=
        setX this
          (Bounds.x oldBounds
           + (x * cos (Bounds.rotation oldBounds * PI / 180)
              + y * sin (Bounds.rotation oldBounds * PI / 180))) in
      let this :=
        setY this
          (Bounds.y oldBounds
           + (x * sin (Bounds.rotation oldBounds * PI / 180)
              + y * cos (Bounds.rotation oldBounds * PI / 180))) in
      Js.Normal this
  end.

Definition computeText (this : Shape) : Js.Completion Shape :=
  let bounds :=
    {| Bounds.x := getX this;
       Bounds.y := getY this;
       Bounds.width := getWidth this;
       Bounds.height := getHeight this;
       Bounds.rotation := getRotation this;
       Bounds.scaleX := getScaleX this;
       Bounds.scaleY := getScaleY this |} in
  let curveRadius := Js.or_number (Attrs.curveRadius this) 1000000 in
  let curveDirection := Attrs.curveDirection this in
  let textMetrics := getTextMetrics this in
  let text :=
    Js.for_loop 0 (String.length (TextMetrics.text textMetrics))
      (fun i text =>
         let circumference := PI * (curveRadius * 2) in
         let rotation :=
           (- TextMetrics.width textMetrics / 2
            + nth i (TextMetrics.xOffsets textMetrics) 0)
           * 360 / circumference in
         let cx := 0 in
         let cy :=
           if Js.gt_attr curveDirection 0 then curveRadius
           else - curveRadius in
         let x := curveRadius * sin (rotation * PI / 180) in
         let y := cy - cy * cos (rotation * PI / 180) in
         Js.push text
           {| Glyph.x := x;
              Glyph.y := y;
              Glyph.rotation :=
                if Js.strict_eq curveRadius 0 then 0
                else if Js.gt_attr curveDirection 0
                     then rotation * PI / 180
                     else - rotation * PI / 180;
              Glyph.glyph :=
                Js.at_index i (TextMetrics.text textMetrics) |})
      [] in
  this <- updateBounds this bounds text ;;
  Js.Normal
    (setAttr__computedText this
       {| ComputedText.curvePath :=
            {| CurvePath.cx := 0;
               CurvePath.cy :=
                 if Js.gt_attr curveDirection 0 then curveRadius
                 else - curveRadius;
               CurvePath.radius := curveRadius;
               CurvePath.color := "rgb(31, 163, 249)" |};
          ComputedText.textMetrics := textMetrics;
          ComputedText.curveText := text |}).

(** [new CurvedText(config)]. *)
Definition constructor (config : option Attrs.t) : Js.Completion Shape :=
  let this := Shape_super (checkDefaultFill config) in
  computeText this.

(** The argument of [setText]: a string, [null], [undefined], or a number
    (converted with [text + '']). *)
Inductive TextArg : Type :=
| ArgString (s : string)
| ArgNull
| ArgUndefined
| ArgNumber (n : R).

Definition setText (this : Shape) (text : TextArg) : Js.Completion Shape :=
  let str :=
    match text with
    | ArgString s => s
    | ArgNull => EmptyString
    | ArgUndefined => EmptyString
    | ArgNumber n => (numberToString n ++ EmptyString)%string
    end in
  let this := _setAttr_text this str in
  this <- computeText this ;;
  Js.Normal this.

(** [this.setAttr('curveDirection', v)]. *)
Definition setAttr_curveDirection (this : Shape) (v : R) : Shape :=
  Attrs.mk (Attrs.x this) (Attrs.y this) (Attrs.width this) (Attrs.height this)
    (Attrs.rotation this) (Attrs.scaleX this) (Attrs.scaleY this)
    (Attrs.fill this) (Attrs.fillLinearGradientColorStops this)
    (Attrs.fillRadialGradientColorStops this) (Attrs.fillPatternImage this)
    (Attrs.text this) (Attrs.fontFamily this) (Attrs.fontSize this)
    (Attrs.fontStyle this) (Attrs.fontVariant this) (Attrs.showCurvePath this)
    (Attrs.curveRadius this) (Some v)
    (Attrs._computedText this).

(** ** Rendering *)

(** [this.getAttr('_editingMode')] reads a key that no method of this file
    writes and that the config type does not have: its truth value is the
    argument [_editingMode].  An entry of [curveText] is read at an index
    below the length of the array, so the default of [nth] is never
    returned; [computedText.curvePath] is an object and is truthy. *)
Definition _sceneFunc (this : Shape) (_editingMode : bool)
  (context : Canvas.Context) : Canvas.Context :=
  let computedText := Attrs._computedText this in
  let curveDirection := Attrs.curveDirection this in
  match computedText with
  | None => context
  | Some computedText =>
      let context :=
        Canvas.call context
          (Canvas.setAttr_fillStyle
             (if _editingMode then Some "rgba(0,0,0,0.1)"%string
              else Attrs.fill this)) in
      let context :=
        Canvas.call context (Canvas.setAttr_font (_getContextFont this)) in
      let context :=
        Canvas.call context (Canvas.setAttr_textBaseline "middle") in
      let context :=
        Canvas.call context (Canvas.setAttr_textAlign "center") in
      let context :=
        Js.for_loop 0 (List.length (ComputedText.curveText computedText))
          (fun i context =>
             let curveText_i :=
               nth i (ComputedText.curveText computedText)
                 (Glyph.mk 0 0 0 EmptyString) in
             let context := Canvas.call context Canvas.save in
             let context :=
               Canvas.call context
                 (Canvas.translate
                    (getWidth this / 2 + Glyph.x curveText_i)
                    (if Js.gt_attr curveDirection 0
                     then Glyph.y curveText_i + getFontSize this / 2
                     else Glyph.y curveText_i + getHeight this
                          - getFontSize this / 2)) in
             let context :=
               Canvas.call context
                 (Canvas.rotate (Glyph.rotation curveText_i)) in
             let context :=
               Canvas.call context
                 (Canvas.fillText (Glyph.glyph curveText_i) 0 0) in
             let context := Canvas.call context Canvas.restore in
             context)
          context in
      if strict_neq_attr (Attrs.curveRadius this) 0
         && truthy_bool (Attrs.showCurvePath this)
      then
        let curvePath := ComputedText.curvePath computedText in
        let context :=
          Canvas.call context
            (Canvas.set_strokeStyle (CurvePath.color curvePath)) in
        let context := Canvas.call context Canvas.save in
        let context := Canvas.call context Canvas.beginPath in
        let context :=
          Canvas.call context
            (Canvas.arc
               (getWidth this / 2 + CurvePath.cx curvePath)
               (if Js.gt_attr curveDirection 0
                then CurvePath.cy curvePath + getFontSize this / 2
                else CurvePath.cy curvePath + getHeight this
                     - getFontSize this / 2)
               (CurvePath.radius curvePath) 0 (PI * 2)) in
        let context := Canvas.call context Canvas.stroke in
        let context := Canvas.call context Canvas.beginPath in
        let context :=
          Canvas.call context
            (Canvas.set_fillStyle (CurvePath.color curvePath)) in
        let context :=
          Canvas.call context
            (Canvas.arc
               (getWidth this / 2 + CurvePath.cx curvePath)
               (if Js.gt_attr curveDirection 0
                then CurvePath.cy curvePath + getFontSize this / 2
                else CurvePath.cy curvePath + getHeight this
                     - getFontSize this / 2)
               3 0 (PI * 2)) in
        let context := Canvas.call context Canvas.fill in
        let context := Canvas.call context Canvas.restore in
        context
      else context
  end.

Definition _hitFunc (this : Shape) (context : Canvas.Context)
  : Canvas.Context :=
  let width := getWidth this in
  let height := getHeight this in
  let context := Canvas.call context Canvas.beginPath in
  let context := Canvas.call context (Canvas.rect 0 0 width height) in
  let context := Canvas.call context Canvas.closePath in
  let context := Canvas.call context (Canvas.fillStrokeShape this) in
  context.

(** ** Definitions used in the statements *)

(** A direction is positive when it is present and above zero. *)
Definition positive (d : option R) : Prop := exists v, d = Some v /\ v > 0.

(** The entry pushed by the loop of [computeText] at index [i]. *)
Definition glyph_at (this : Shape) (i : nat) : Glyph.t :=
  let curveRadius := Js.or_number (Attrs.curveRadius this) 1000000 in
  let curveDirection := Attrs.curveDirection this in
  let textMetrics := getTextMetrics this in
  let circumference := PI * (curveRadius * 2) in
  let rotation :=
    (- TextMetrics.width textMetrics / 2
     + nth i (TextMetrics.xOffsets textMetrics) 0)
    * 360 / circumference in
  let cy :=
    if Js.gt_attr curveDirection 0 then curveRadius else - curveRadius in
  {| Glyph.x := curveRadius * sin (rotation * PI / 180);
     Glyph.y := cy - cy * cos (rotation * PI / 180);
     Glyph.rotation :=
       if Js.strict_eq curveRadius 0 then 0
       else if Js.gt_attr curveDirection 0
            then rotation * PI / 180
            else - rotation * PI / 180;
     Glyph.glyph := Js.at_index i (TextMetrics.text textMetrics) |}.

(** The object [computeText] stores in [_computedText]. *)
Definition layout_of (this : Shape) : ComputedText.t :=
  let curveRadius := Js.or_number (Attrs.curveRadius this) 1000000 in
  {| ComputedText.curvePath :=
       {| CurvePath.cx := 0;
          CurvePath.cy :=
            if Js.gt_attr (Attrs.curveDirection this) 0 then curveRadius
            else - curveRadius;
          CurvePath.radius := curveRadius;
          CurvePath.color := "rgb(31, 163, 249)" |};
     ComputedText.textMetrics := getTextMetrics this;
     ComputedText.curveText :=
       map (glyph_at this) (seq 0 (String.length (getText this))) |}.

(** The bounds [computeText] hands to [updateBounds]. *)
Definition bounds_of (this : Shape) : Bounds.t :=
  {| Bounds.x := getX this;
     Bounds.y := getY this;
     Bounds.width := getWidth this;
     Bounds.height := getHeight this;
     Bounds.rotation := getRotation this;
     Bounds.scaleX := getScaleX this;
     Bounds.scaleY := getScaleY this |}.

(** The angle, in degrees, of the glyph of index [i]: the [rotation]
    constant of the loop of [computeText]. *)
Definition rotation_at (this : Shape) (i : nat) : R :=
  (- TextMetrics.width (getTextMetrics this) / 2
   + nth i (TextMetrics.xOffsets (getTextMetrics this)) 0)
  * 360 / (PI * (Js.or_number (Attrs.curveRadius this) 1000000 * 2)).

(** The greatest and the least of [a] and the elements of [l]. *)
Definition maximum (a : R) (l : list R) : R := fold_left Rmax l a.
Definition minimum (a : R) (l : list R) : R := fold_left Rmin l a.

(** One turn of the loop of [updateBounds] on the entry [g]. *)
Definition extend (g : Glyph.t) (textBounds : TextBounds.t) : TextBounds.t :=
  let textBounds :=
    if Js.gt (TextBounds.minX textBounds) (Glyph.x g)
    then {| TextBounds.minX := Glyph.x g;
            TextBounds.minY := TextBounds.minY textBounds;
            TextBounds.maxX := TextBounds.maxX textBounds;
            TextBounds.maxY := TextBounds.maxY textBounds |}
    else textBounds in
  let textBounds :=
    if Js.lt (TextBounds.maxX textBounds) (Glyph.x g)
    then {| TextBounds.minX := TextBounds.minX textBounds;
            TextBounds.minY := TextBounds.minY textBounds;
            TextBounds.maxX := Glyph.x g;
            TextBounds.maxY := TextBounds.maxY textBounds |}
    else textBounds in
  let textBounds :=
    if Js.gt (TextBounds.minY textBounds) (Glyph.y g)
    then {| TextBounds.minX := TextBounds.minX textBounds;
            TextBounds.minY := Glyph.y g;
            TextBounds.maxX := TextBounds.maxX textBounds;
            TextBounds.maxY := TextBounds.maxY textBounds |}
    else textBounds in
  let textBounds :=
    if Js.lt (TextBounds.maxY textBounds) (Glyph.y g)
    then {| TextBounds.minX := TextBounds.minX textBounds;
            TextBounds.minY := TextBounds.minY textBounds;
            TextBounds.maxX := TextBounds.maxX textBounds;
            TextBounds.maxY := Glyph.y g |}
    else textBounds in
  textBounds.

(** A direction is negative when it is present and below zero. *)
Definition negative (d : option R) : Prop := exists v, d = Some v /\ v < 0.

(** The sum [f 0 + ... + f (i - 1)]. *)
Fixpoint sum_before (f : nat -> R) (i : nat) : R :=
  match i with
  | O => 0
  | S k => sum_before f k + f k
  end.

(** What [normalizeFontFamily] does to one family of the list: the function
    it maps over the pieces. *)
Definition normalizeFamily (family : string) : string :=
  let family := trim family in
  let hasSpace := has_char " " family in
  let hasQuotes :=
    has_char double_quote family || has_char single_quote family in
  if hasSpace && negb hasQuotes
  then (String double_quote family ++ String double_quote EmptyString)%string
  else family.

(** A string is trimmed at the start when it is empty or starts with a
    character that is not white space. *)
Definition starts_clean (s : string) : Prop :=
  match s with
  | EmptyString => True
  | String c _ => is_white_space c = false
  end.

(** The five calls [_sceneFunc] makes for one placed glyph. *)
Definition glyph_calls (this : Shape) (g : Glyph.t) : list Canvas.Call :=
  [Canvas.save;
   Canvas.translate
     (getWidth this / 2 + Glyph.x g)
     (if Js.gt_attr (Attrs.curveDirection this) 0
      then Glyph.y g + getFontSize this / 2
      else Glyph.y g + getHeight this - getFontSize this / 2);
   Canvas.rotate (Glyph.rotation g);
   Canvas.fillText (Glyph.glyph g) 0 0;
   Canvas.restore].

(** The depth of [save] a sequence of calls ends at, when it starts at
    depth [d]; [None] when it calls [restore] at depth 0, or [translate] or
    [rotate] outside every [save]. *)
Fixpoint nesting (d : nat) (calls : list Canvas.Call) : option nat :=
  match calls with
  | [] => Some d
  | Canvas.save :: calls => nesting (S d) calls
  | Canvas.restore :: calls =>
      match d with
      | O => None
      | S d' => nesting d' calls
      end
  | Canvas.translate _ _ :: calls | Canvas.rotate _ :: calls =>
      match d with
      | O => None
      | S _ => nesting d calls
      end
  | _ :: calls => nesting d calls
  end.

(** The strings drawn by the [fillText] calls, in order. *)
Fixpoint filled_texts (calls : list Canvas.Call) : list string :=
  match calls with
  | [] => []
  | Canvas.fillText text _ _ :: calls => text :: filled_texts calls
  | _ :: calls => filled_texts calls
  end.

(** The [arc] calls, in order. *)
Fixpoint arcs (calls : list Canvas.Call) : list Canvas.Call :=
  match calls with
  | [] => []
  | Canvas.arc x y r a b :: calls => Canvas.arc x y r a b :: arcs calls
  | _ :: calls => arcs calls
  end.

(** The calls [_sceneFunc] makes when a layout is stored: the four
    settings, the calls of every glyph, and the guide when it is shown. *)
Definition scene_calls (this : Shape) (_editingMode : bool)
  (computedText : ComputedText.t) : list Canvas.Call :=
  let path := ComputedText.curvePath computedText in
  let cy :=
    if Js.gt_attr (Attrs.curveDirection this) 0
    then CurvePath.cy path + getFontSize this / 2
    else CurvePath.cy path + getHeight this - getFontSize this / 2 in
  [Canvas.setAttr_fillStyle
     (if _editingMode then Some "rgba(0,0,0,0.1)"%string
      else Attrs.fill this);
   Canvas.setAttr_font (_getContextFont this);
   Canvas.setAttr_textBaseline "middle";
   Canvas.setAttr_textAlign "center"]
  ++ flat_map (glyph_calls this) (ComputedText.curveText computedText)
  ++ (if strict_neq_attr (Attrs.curveRadius this) 0
         && truthy_bool (Attrs.showCurvePath this)
      then [Canvas.set_strokeStyle (CurvePath.color path);
            Canvas.save;
            Canvas.beginPath;
            Canvas.arc (getWidth this / 2 + CurvePath.cx path) cy
              (CurvePath.radius path) 0 (PI * 2);
            Canvas.stroke;
            Canvas.beginPath;
            Canvas.set_fillStyle (CurvePath.color path);
            Canvas.arc (getWidth this / 2 + CurvePath.cx path) cy
              3 0 (PI * 2);
            Canvas.fill;
            Canvas.restore]
      else []).

(** ** Operators and loops *)

Lemma gt_true (a b : R) : Js.gt a b = true <-> a > b.
Proof.
  unfold Js.gt. destruct (Rgt_dec a b); split; intros; try easy.
Qed.

Lemma lt_true (a b : R) : Js.lt a b = true <-> a < b.
Proof.
  unfold Js.lt. destruct (Rlt_dec a b); split; intros; try easy.
Qed.

Lemma strict_eq_true (a b : R) : Js.strict_eq a b = true <-> a = b.
Proof.
  unfold Js.strict_eq. destruct (Req_dec_T a b); split; intros; try easy.
Qed.

Lemma strict_eq_false (a b : R) : a <> b -> Js.strict_eq a b = false.
Proof.
  intros H. destruct (Js.strict_eq a b) eqn:E; [|reflexivity].
  apply strict_eq_true in E. contradiction.
Qed.

Lemma gt_attr_true (d : option R) : Js.gt_attr d 0 = true <-> positive d.
Proof.
  unfold positive. destruct d as [v|]; simpl.
  - rewrite gt_true. split.
    + intros H. exists v. auto.
    + intros (w & E & H). injection E as ->. exact H.
  - split; [discriminate|]. intros (w & E & _). discriminate.
Qed.

Lemma gt_attr_false (d : option R) : Js.gt_attr d 0 = false <-> ~ positive d.
Proof.
  rewrite <- gt_attr_true. destruct (Js.gt_attr d 0); split; intros; easy.
Qed.

Lemma or_number_neq_0 (a : option R) (d : R) : d <> 0 -> Js.or_number a d <> 0.
Proof.
  intros Hd. unfold Js.or_number. destruct a as [v|]; [|exact Hd].
  destruct (Req_dec_T v 0); assumption.
Qed.

Lemma for_loop_done {A : Type} (from to : nat) (body : nat -> A -> A)
  (init : A) :
  (to <= from)%nat -> Js.for_loop from to body init = init.
Proof.
  intros H. unfold Js.for_loop.
  replace (to - from)%nat with 0%nat by lia. reflexivity.
Qed.

Lemma for_loop_step {A : Type} (from to : nat) (body : nat -> A -> A)
  (init : A) :
  (from <= to)%nat ->
  Js.for_loop from (S to) body init = body to (Js.for_loop from to body init).
Proof.
  intros H. unfold Js.for_loop.
  replace (S to - from)%nat with (S (to - from)) by lia.
  rewrite seq_S, fold_left_app. simpl.
  replace (from + (to - from))%nat with to by lia. reflexivity.
Qed.

Lemma fold_left_push {A : Type} (f : nat -> A) (l : list nat) (init : list A) :
  fold_left (fun acc i => Js.push acc (f i)) l init = init ++ map f l.
Proof.
  revert init. induction l as [|i l IH]; intros init; simpl.
  - now rewrite app_nil_r.
  - rewrite IH. unfold Js.push. now rewrite <- app_assoc.
Qed.

(** A loop that only pushes a value computed from the index builds the
    array of these values, in index order. *)
Lemma for_loop_push {A : Type} (from to : nat) (f : nat -> A)
  (init : list A) :
  Js.for_loop from to (fun i acc => Js.push acc (f i)) init
  = init ++ map f (seq from (to - from)).
Proof. apply fold_left_push. Qed.

Lemma nth_map_seq {A : Type} (f : nat -> A) (n i : nat) (d : A) :
  (i < n)%nat -> nth i (map f (seq 0 n)) d = f i.
Proof.
  intros H. rewrite (nth_indep _ d (f 0%nat)) by now rewrite length_map, length_seq.
  rewrite (map_nth f (seq 0 n) 0%nat i), seq_nth by exact H. reflexivity.
Qed.

(** ** Strings *)

Lemma substring_one (i : nat) (s : string) :
  Js.substring i (i + 1) s = Js.at_index i s.
Proof.
  unfold Js.substring, Js.at_index.
  replace (Nat.min i (i + 1)) with i by lia.
  replace (Nat.max i (i + 1) - i)%nat with 1%nat by lia. reflexivity.
Qed.

Lemma substring_first (s : string) : Js.substring 0 1 s = Js.at_index 0 s.
Proof. exact (substring_one 0 s). Qed.

Lemma substring_pair_append (j : nat) (s : string) :
  String.substring j 2 s
  = (String.substring j 1 s ++ String.substring (S j) 1 s)%string.
Proof.
  revert j. induction s as [|c s IH]; intros j.
  - destruct j; reflexivity.
  - destruct j as [|j].
    + simpl. destruct s; reflexivity.
    + simpl. apply IH.
Qed.

(** The two-character window of the kerning measurement is the previous
    glyph followed by the current one. *)
Lemma substring_pair (i : nat) (s : string) :
  (1 <= i)%nat ->
  Js.substring (i - 1) (i + 1) s
  = (Js.at_index (i - 1) s ++ Js.at_index i s)%string.
Proof.
  intros H. unfold Js.substring, Js.at_index.
  replace (Nat.min (i - 1) (i + 1)) with (i - 1)%nat by lia.
  replace (Nat.max (i - 1) (i + 1) - (i - 1))%nat with 2%nat by lia.
  rewrite substring_pair_append.
  replace (S (i - 1)) with i by lia. reflexivity.
Qed.

(** ** Font descriptor on examples *)

Example split_families :
  split "," "Times New Roman, Arial" = ["Times New Roman"; " Arial"]%string.
Proof. reflexivity. Qed.

Example trim_family : trim "  Open Sans " = "Open Sans"%string.
Proof. reflexivity. Qed.

(** A family with a space and no quotes is wrapped in double quotes; the
    others pass through. *)
Example normalizeFontFamily_wraps :
  normalizeFontFamily "Times New Roman,Arial"
  = (String double_quote "Times New Roman"
       ++ String double_quote ", Arial")%string.
Proof. reflexivity. Qed.

(** ** Glyph measurer *)

(** The array built by a loop that pushes, at index [i], a value computed
    from the entry before it. *)
Lemma for_loop_cumulative (h : nat -> R -> R) (a : R) (m : nat) :
  let xs :=
    Js.for_loop 1 (S m)
      (fun i xOffsets => Js.push xOffsets (h i (nth (i - 1) xOffsets 0)))
      [a] in
  List.length xs = S m
  /\ nth 0 xs 0 = a
  /\ forall i, (1 <= i <= m)%nat -> nth i xs 0 = h i (nth (i - 1) xs 0).
Proof.
  induction m as [|m IH]; cbv zeta.
  - rewrite for_loop_done by lia. repeat split. intros i Hi. lia.
  - rewrite for_loop_step by lia. cbv zeta in IH.
    set (xs := Js.for_loop 1 (S m) _ [a]) in *.
    destruct IH as (Hlen & H0 & Hrec). unfold Js.push.
    repeat split.
    + rewrite length_app, Hlen. simpl. lia.
    + rewrite app_nth1 by lia. exact H0.
    + intros i Hi.
      rewrite (app_nth1 xs _ 0 (n := i - 1)) by lia.
      destruct (Nat.eq_dec i (S m)) as [->|Hne].
      * rewrite app_nth2 by lia. rewrite Hlen, Nat.sub_diag. reflexivity.
      * rewrite app_nth1 by lia. apply Hrec. lia.
Qed.

(** The [glyphs] array of [getTextMetrics] holds the one-character
    substrings of the text. *)
Lemma glyphs_nth (text : string) (i : nat) :
  (i < String.length text)%nat ->
  nth i
    (Js.for_loop 0 (String.length text)
       (fun i glyphs => Js.push glyphs (Js.substring i (i + 1) text)) [])
    EmptyString
  = Js.at_index i text.
Proof.
  intros H. rewrite for_loop_push, Nat.sub_0_r. simpl.
  rewrite nth_map_seq by exact H. apply substring_one.
Qed.

Lemma for_loop_ext {A : Type} (from to : nat) (f g : nat -> A -> A)
  (init : A) :
  (forall i acc, (from <= i < to)%nat -> f i acc = g i acc) ->
  Js.for_loop from to f init = Js.for_loop from to g init.
Proof.
  intros H. unfold Js.for_loop.
  assert (In_seq : forall i, In i (seq from (to - from)) -> (from <= i < to)%nat)
    by (intros i Hi; apply in_seq in Hi; lia).
  revert init In_seq. generalize (seq from (to - from)) as l.
  induction l as [|i l IH]; intros init Hin; simpl; [reflexivity|].
  rewrite H by (apply Hin; now left). apply IH.
  intros j Hj. apply Hin. now right.
Qed.

(** Every index read by the second loop of [getTextMetrics] and by the loop
    of [computeText] is in range: the offsets array has one entry per
    character of a non-empty text. *)
Lemma getTextMetrics_reads_in_range (this : Shape) :
  (0 < String.length (getText this))%nat ->
  List.length (TextMetrics.xOffsets (getTextMetrics this))
  = String.length (getText this).
Proof.
  intros Hn. unfold getTextMetrics. simpl.
  destruct (String.length (getText this)) as [|m] eqn:E; [lia|].
  pose proof (for_loop_cumulative
    (fun i v =>
       v + measureText (_getContextFont this)
             (Js.substring (i - 1) (i + 1) (getText this))
       - measureText (_getContextFont this)
           (nth (i - 1)
              (Js.for_loop 0 (S m)
                 (fun i glyphs =>
                    Js.push glyphs (Js.substring i (i + 1) (getText this)))
                 []) EmptyString) / 2
       - measureText (_getContextFont this)
           (nth i
              (Js.for_loop 0 (S m)
                 (fun i glyphs =>
                    Js.push glyphs (Js.substring i (i + 1) (getText this)))
                 []) EmptyString) / 2)
    (measureText (_getContextFont this) (Js.substring 0 1 (getText this)) / 2)
    m) as H.
  simpl in H. apply H.
Qed.

(** C5.  For a non-empty text of length [n], the glyph measurer returns
    [n] offsets; the first is half the width of the first glyph; each later
    one is the previous offset plus the measured width of the pair formed
    by the previous and the current glyph, minus half the width of each of
    the two; and the returned width is the measured width of the whole
    text. *)
Theorem getTextMetrics_kerning_offsets (this : Shape) :
  let text := getText this in
  let n := String.length text in
  let width := measureText (_getContextFont this) in
  let glyph := fun i => Js.at_index i text in
  let metrics := getTextMetrics this in
  let xOffsets := TextMetrics.xOffsets metrics in
  (0 < n)%nat ->
  TextMetrics.text metrics = text
  /\ List.length xOffsets = n
  /\ nth 0 xOffsets 0 = width (glyph 0%nat) / 2
  /\ (forall i, (1 <= i < n)%nat ->
        nth i xOffsets 0
        = nth (i - 1) xOffsets 0
          + width (glyph (i - 1)%nat ++ glyph i)%string
          - width (glyph (i - 1)%nat) / 2
          - width (glyph i) / 2)
  /\ TextMetrics.width metrics = width text.
Proof.
  intros text n width glyph metrics xOffsets Hn.
  split; [reflexivity|].
  split; [apply getTextMetrics_reads_in_range; exact Hn|].
  subst xOffsets metrics. unfold getTextMetrics. simpl.
  fold text. fold n. fold width.
  destruct n as [|m] eqn:E; [lia|].
  set (glyphs := Js.for_loop 0 (S m) _ []).
  pose proof (for_loop_cumulative
    (fun i v =>
       v + width (Js.substring (i - 1) (i + 1) text)
       - width (nth (i - 1) glyphs EmptyString) / 2
       - width (nth i glyphs EmptyString) / 2)
    (width (Js.substring 0 1 text) / 2) m) as H.
  simpl in H. destruct H as (_ & H0 & Hrec).
  split; [|split; [|reflexivity]].
  - rewrite H0. now rewrite substring_first.
  - intros i Hi. rewrite Hrec by lia.
    subst glyphs. rewrite <- E. subst n.
    rewrite !glyphs_nth by (fold text; lia).
    rewrite substring_pair by lia. reflexivity.
Qed.

(** ** Arc mapper *)

Lemma computeText_unfold (this : Shape) :
  computeText this
  = (this' <- updateBounds this (bounds_of this)
                (ComputedText.curveText (layout_of this)) ;;
     Js.Normal (setAttr__computedText this' (layout_of this))).
Proof.
  unfold computeText, layout_of, glyph_at, bounds_of. cbv zeta.
  rewrite for_loop_push, Nat.sub_0_r. reflexivity.
Qed.

(** On a non-empty array [updateBounds] returns normally, having written
    the width, the height, the x and the y of the shape and nothing else. *)
Lemma updateBounds_normal (this : Shape) (oldBounds : Bounds.t)
  (text : list Glyph.t) :
  text <> [] ->
  exists w h x y,
    updateBounds this oldBounds text
    = Js.Normal (setY (setX (setHeight (setWidth this w) h) x) y).
Proof.
  intros H. destruct text as [|text_0 text]; [contradiction|].
  unfold updateBounds. cbv zeta. eauto.
Qed.

Lemma updateBounds_empty (this : Shape) (oldBounds : Bounds.t) :
  updateBounds this oldBounds [] = Js.Throw Js.TypeError.
Proof. reflexivity. Qed.

Lemma curveText_length (this : Shape) :
  List.length (ComputedText.curveText (layout_of this))
  = String.length (getText this).
Proof. simpl. now rewrite length_map, length_seq. Qed.

(** The layout of a non-empty text completes; it stores [layout_of] and
    writes, besides it, only the width, height, x and y of the shape. *)
Lemma computeText_normal (this : Shape) :
  (0 < String.length (getText this))%nat ->
  exists w h x y,
    computeText this
    = Js.Normal
        (setAttr__computedText
           (setY (setX (setHeight (setWidth this w) h) x) y)
           (layout_of this)).
Proof.
  intros Hn. rewrite computeText_unfold.
  destruct (updateBounds_normal this (bounds_of this)
              (ComputedText.curveText (layout_of this)))
    as (w & h & x & y & E).
  - intros E. pose proof (curveText_length this) as L.
    rewrite E in L. simpl in L. lia.
  - rewrite E. simpl. eauto.
Qed.

(** The layout of an empty text throws. *)
Lemma computeText_empty (this : Shape) :
  getText this = EmptyString -> computeText this = Js.Throw Js.TypeError.
Proof.
  intros E. rewrite computeText_unfold.
  unfold layout_of. cbv zeta. simpl ComputedText.curveText.
  rewrite E. reflexivity.
Qed.

(** What a completed layout stored. *)
Lemma computeText_stores (this this' : Shape) :
  computeText this = Js.Normal this' ->
  Attrs._computedText this' = Some (layout_of this)
  /\ (0 < String.length (getText this))%nat.
Proof.
  intros H.
  destruct (String.length (getText this)) as [|m] eqn:E.
  - rewrite computeText_empty in H; [discriminate|].
    destruct (getText this); [reflexivity|discriminate].
  - destruct (computeText_normal this) as (w & h & x & y & N); [lia|].
    rewrite N in H. injection H as <-. split; [reflexivity|lia].
Qed.

Lemma nth_error_map_seq {A : Type} (f : nat -> A) (n i : nat) (a : A) :
  nth_error (map f (seq 0 n)) i = Some a -> (i < n)%nat /\ a = f i.
Proof.
  intros H.
  assert (Hi : (i < n)%nat).
  { assert (L : (i < List.length (map f (seq 0 n)))%nat)
      by (apply nth_error_Some; congruence).
    now rewrite length_map, length_seq in L. }
  split; [exact Hi|].
  apply (nth_error_nth _ _ a) in H. rewrite nth_map_seq in H by exact Hi.
  congruence.
Qed.

Lemma nth_error_curveText (this : Shape) (i : nat) :
  (i < String.length (getText this))%nat ->
  nth_error (ComputedText.curveText (layout_of this)) i
  = Some (glyph_at this i).
Proof.
  intros Hi. simpl.
  rewrite (nth_error_nth' _ (glyph_at this 0))
    by now rewrite length_map, length_seq.
  now rewrite nth_map_seq.
Qed.

Lemma glyph_at_fields (this : Shape) (i : nat) :
  glyph_at this i
  = let curveRadius := Js.or_number (Attrs.curveRadius this) 1000000 in
    let curveDirection := Attrs.curveDirection this in
    let rotation := rotation_at this i in
    let cy :=
      if Js.gt_attr curveDirection 0 then curveRadius else - curveRadius in
    {| Glyph.x := curveRadius * sin (rotation * PI / 180);
       Glyph.y := cy - cy * cos (rotation * PI / 180);
       Glyph.rotation :=
         if Js.strict_eq curveRadius 0 then 0
         else if Js.gt_attr curveDirection 0
              then rotation * PI / 180
              else - rotation * PI / 180;
       Glyph.glyph := Js.at_index i (getText this) |}.
Proof. reflexivity. Qed.

Lemma rotation_at_setAttr_curveDirection (this : Shape) (v : R) (i : nat) :
  rotation_at (setAttr_curveDirection this v) i = rotation_at this i.
Proof. reflexivity. Qed.

Lemma angle_degrees (w xo r : R) :
  (- w / 2 + xo) * 360 / (PI * (r * 2)) = (xo - w / 2) * 360 / (2 * PI * r).
Proof. unfold Rdiv. f_equal; [ring|]. f_equal. ring. Qed.

Lemma angle_negated (a : R) : - a * PI / 180 = - (a * PI / 180).
Proof. unfold Rdiv. ring. Qed.

(** C6.  In a completed layout the glyph of index [i] sits on the circle of
    the effective radius [r]: with
    [angleDeg = (xOffsets[i] - width/2) * 360 / (2 * PI * r)] and [angleRad]
    its conversion to radians, [x = r * sin angleRad] and
    [y = cy - cy * cos angleRad], where [cy = r] and the rotation is
    [angleRad] when the direction is positive, and [cy = -r] and the
    rotation is [- angleRad] otherwise. *)
Theorem computeText_glyph_placement (this : Shape) (i : nat) :
  (i < String.length (getText this))%nat ->
  exists this' layout g,
    computeText this = Js.Normal this'
    /\ Attrs._computedText this' = Some layout
    /\ nth_error (ComputedText.curveText layout) i = Some g
    /\ ComputedText.textMetrics layout = getTextMetrics this
    /\ CurvePath.radius (ComputedText.curvePath layout)
       = Js.or_number (Attrs.curveRadius this) 1000000
    /\ let metrics := ComputedText.textMetrics layout in
       let r := CurvePath.radius (ComputedText.curvePath layout) in
       let cy := CurvePath.cy (ComputedText.curvePath layout) in
       let d := Attrs.curveDirection this in
       let angleDeg :=
         (nth i (TextMetrics.xOffsets metrics) 0
          - TextMetrics.width metrics / 2) * 360 / (2 * PI * r) in
       let angleRad := angleDeg * PI / 180 in
       Glyph.x g = r * sin angleRad
       /\ Glyph.y g = cy - cy * cos angleRad
       /\ Glyph.glyph g = Js.at_index i (getText this)
       /\ (positive d -> cy = r /\ Glyph.rotation g = angleRad)
       /\ (~ positive d -> cy = - r /\ Glyph.rotation g = - angleRad).
Proof.
  intros Hi.
  destruct (computeText_normal this) as (w & h & x & y & N); [lia|].
  eexists. exists (layout_of this), (glyph_at this i).
  split; [exact N|]. split; [reflexivity|].
  split; [now apply nth_error_curveText|].
  split; [reflexivity|]. split; [reflexivity|].
  cbv zeta. simpl ComputedText.textMetrics. simpl ComputedText.curvePath.
  simpl CurvePath.radius. simpl CurvePath.cy.
  unfold glyph_at. cbv zeta. simpl Glyph.x. simpl Glyph.y.
  simpl Glyph.rotation. simpl Glyph.glyph.
  rewrite angle_degrees.
  rewrite (strict_eq_false (Js.or_number (Attrs.curveRadius this) 1000000) 0)
    by (apply or_number_neq_0; lra).
  split; [reflexivity|]. split; [reflexivity|]. split; [reflexivity|].
  split; intros Hd.
  - apply gt_attr_true in Hd. rewrite Hd. split; reflexivity.
  - apply gt_attr_false in Hd. rewrite Hd. split; [reflexivity|].
    apply angle_negated.
Qed.

(** C7.  Whatever the [curveRadius] attribute holds, absent, zero or any
    other number, the radius the layout works with is not zero: it is the
    attribute when that is a non-zero number and 1000000 otherwise, and the
    circumference [PI * (radius * 2)] is then not zero either.  A completed
    layout records this radius, and the angle of every glyph it places is a
    true quotient by this circumference: the angle, in degrees, times the
    circumference gives back the offset of the glyph from the middle of the
    text times 360, and the position and the rotation of the glyph are
    those of this angle on the circle of this radius. *)
Theorem effective_radius_nonzero (this : Shape) :
  let r := Js.or_number (Attrs.curveRadius this) 1000000 in
  r <> 0
  /\ PI * (r * 2) <> 0
  /\ (Attrs.curveRadius this = None \/ Attrs.curveRadius this = Some 0 ->
      r = 1000000)
  /\ (forall v, Attrs.curveRadius this = Some v -> v <> 0 -> r = v)
  /\ (forall this',
        computeText this = Js.Normal this' ->
        exists layout,
          Attrs._computedText this' = Some layout
          /\ CurvePath.radius (ComputedText.curvePath layout) = r
          /\ forall i g,
               nth_error (ComputedText.curveText layout) i = Some g ->
               let metrics := ComputedText.textMetrics layout in
               let cy := CurvePath.cy (ComputedText.curvePath layout) in
               let d := nth i (TextMetrics.xOffsets metrics) 0
                        - TextMetrics.width metrics / 2 in
               exists angleDeg,
                 angleDeg = d * 360 / (PI * (r * 2))
                 /\ angleDeg * (PI * (r * 2)) = d * 360
                 /\ Glyph.x g = r * sin (angleDeg * PI / 180)
                 /\ Glyph.y g = cy - cy * cos (angleDeg * PI / 180)
                 /\ (Glyph.rotation g = angleDeg * PI / 180
                     \/ Glyph.rotation g = - (angleDeg * PI / 180))).
Proof.
  intros r.
  assert (Hr : r <> 0) by (apply or_number_neq_0; lra).
  assert (Hc : PI * (r * 2) <> 0).
  { pose proof PI_RGT_0 as HPI.
    apply Rmult_integral_contrapositive_currified; [lra|].
    apply Rmult_integral_contrapositive_currified; [exact Hr|lra]. }
  split; [exact Hr|]. split; [exact Hc|].
  split; [|split].
  - subst r. unfold Js.or_number. intros [-> | ->]; [reflexivity|].
    destruct (Req_dec_T 0 0); [reflexivity|contradiction].
  - subst r. unfold Js.or_number. intros v -> Hv.
    destruct (Req_dec_T v 0); [contradiction|reflexivity].
  - intros this' H. exists (layout_of this).
    split; [apply (computeText_stores _ _ H)|]. split; [reflexivity|].
    intros i g G metrics cy d.
    apply nth_error_map_seq in G. destruct G as (_ & ->).
    exists (rotation_at this i).
    assert (E : rotation_at this i = d * 360 / (PI * (r * 2))).
    { unfold rotation_at. fold r. subst d metrics.
      cbn [layout_of ComputedText.textMetrics].
      unfold Rdiv. f_equal. f_equal. ring. }
    split; [exact E|]. split.
    { rewrite E. unfold Rdiv. rewrite Rmult_assoc, Rinv_l by exact Hc. ring. }
    rewrite glyph_at_fields. cbv zeta.
    cbn [Glyph.x Glyph.y Glyph.rotation]. fold r.
    rewrite (strict_eq_false r 0 Hr).
    split; [reflexivity|]. split; [reflexivity|].
    destruct (Js.gt_attr (Attrs.curveDirection this) 0).
    + left. reflexivity.
    + right. apply angle_negated.
Qed.

(** ** Recomputing *)

(** C8.  Running the layout again on the shape a completed layout left
    behind completes too and stores the same value: metrics, placed glyphs
    and guide circle. *)
Theorem computeText_idempotent (this this1 : Shape) :
  computeText this = Js.Normal this1 ->
  exists this2,
    computeText this1 = Js.Normal this2
    /\ Attrs._computedText this2 = Attrs._computedText this1
    /\ Attrs._computedText this1 = Some (layout_of this).
Proof.
  intros H.
  destruct (computeText_stores _ _ H) as (S1 & Hn).
  destruct (computeText_normal this Hn) as (w & h & x & y & N).
  rewrite N in H. injection H as <-.
  match goal with |- context [computeText ?s] => set (this1 := s) end.
  assert (Hn1 : (0 < String.length (getText this1))%nat) by exact Hn.
  destruct (computeText_normal this1 Hn1) as (w' & h' & x' & y' & N1).
  eexists. split; [exact N1|]. split; reflexivity.
Qed.

(** C9.  For a non-empty text, the layout with direction [1] and the layout
    with direction [-1] of the same shape both complete, place as many
    glyphs, and place the glyph of each index at the same [x] and at
    opposite [y]. *)
Theorem computeText_direction_mirror (this : Shape) :
  let up := setAttr_curveDirection this 1 in
  let down := setAttr_curveDirection this (-1) in
  let n := String.length (getText this) in
  (0 < n)%nat ->
  exists this1 layout1 this2 layout2,
    computeText up = Js.Normal this1
    /\ Attrs._computedText this1 = Some layout1
    /\ computeText down = Js.Normal this2
    /\ Attrs._computedText this2 = Some layout2
    /\ List.length (ComputedText.curveText layout1) = n
    /\ List.length (ComputedText.curveText layout2) = n
    /\ CurvePath.cy (ComputedText.curvePath layout1)
       = - CurvePath.cy (ComputedText.curvePath layout2)
    /\ forall i g1 g2,
         nth_error (ComputedText.curveText layout1) i = Some g1 ->
         nth_error (ComputedText.curveText layout2) i = Some g2 ->
         Glyph.x g1 = Glyph.x g2 /\ Glyph.y g1 = - Glyph.y g2.
Proof.
  intros up down n Hn.
  destruct (computeText_normal up Hn) as (w & h & x & y & N1).
  destruct (computeText_normal down Hn) as (w' & h' & x' & y' & N2).
  assert (Hup : Js.gt 1 0 = true) by (apply gt_true; lra).
  assert (Hdown : Js.gt (-1) 0 = false).
  { destruct (Js.gt (-1) 0) eqn:E; [|reflexivity].
    apply gt_true in E. lra. }
  eexists. exists (layout_of up). eexists. exists (layout_of down).
  split; [exact N1|]. split; [reflexivity|].
  split; [exact N2|]. split; [reflexivity|].
  split; [apply (curveText_length up)|].
  split; [apply (curveText_length down)|].
  split.
  - simpl. rewrite Hup, Hdown. ring.
  - intros i g1 g2 H1 H2.
    apply nth_error_map_seq in H1. apply nth_error_map_seq in H2.
    destruct H1 as (_ & ->). destruct H2 as (_ & ->).
    rewrite !glyph_at_fields. cbn [Glyph.x Glyph.y]. subst up down.
    rewrite !rotation_at_setAttr_curveDirection.
    cbn [Attrs.curveDirection Attrs.curveRadius setAttr_curveDirection].
    unfold Js.gt_attr. rewrite Hup, Hdown.
    split; [reflexivity|ring].
Qed.

(** ** Empty text *)

(** C2.  The layout of an empty text does not complete: [updateBounds]
    reads [text[0].x] on the empty array of placed glyphs and throws a
    TypeError.  This happens for [setText] called with [null], [undefined]
    or the empty string, and for a shape constructed without a config. *)
Theorem empty_text_layout_throws (this : Shape) :
  setText this ArgNull = Js.Throw Js.TypeError
  /\ setText this ArgUndefined = Js.Throw Js.TypeError
  /\ setText this (ArgString EmptyString) = Js.Throw Js.TypeError
  /\ computeText (_setAttr_text this EmptyString) = Js.Throw Js.TypeError
  /\ constructor None = Js.Throw Js.TypeError.
Proof.
  assert (H : computeText (_setAttr_text this EmptyString)
              = Js.Throw Js.TypeError)
    by (apply computeText_empty; reflexivity).
  unfold setText. cbv zeta. rewrite H. simpl.
  repeat split; reflexivity.
Qed.

(** ** Bounds reconciler *)

(** What [updateBounds] writes as the new position: the prior position plus
    [(x * cos t + y * sin t, x * sin t + y * cos t)], where [x] is half the
    difference of the old and the new scaled width, [y] the difference of
    the old and the new scaled height when the direction is below zero and
    [0] otherwise, and [t] the rotation of the shape in radians. *)
Lemma updateBounds_position (this this' : Shape) (oldBounds : Bounds.t)
  (text : list Glyph.t) :
  updateBounds this oldBounds text = Js.Normal this' ->
  let x :=
    (Bounds.width oldBounds * Bounds.scaleX oldBounds
     - getWidth this' * Bounds.scaleX oldBounds) / 2 in
  let y :=
    if Js.lt_attr (Attrs.curveDirection this) 0
    then Bounds.height oldBounds * Bounds.scaleY oldBounds
         - getHeight this' * Bounds.scaleY oldBounds
    else 0 in
  let t := Bounds.rotation oldBounds * PI / 180 in
  getX this' = Bounds.x oldBounds + (x * cos t + y * sin t)
  /\ getY this' = Bounds.y oldBounds + (x * sin t + y * cos t).
Proof.
  destruct text as [|text_0 text]; [discriminate|].
  unfold updateBounds. cbv zeta. intros H. injection H as <-.
  split; reflexivity.
Qed.

Lemma maximum_ge (l : list R) (a : R) :
  a <= maximum a l /\ forall v, In v l -> v <= maximum a l.
Proof.
  unfold maximum. revert a. induction l as [|b l IH]; intros a; simpl.
  - split; [lra|]. intros v [].
  - destruct (IH (Rmax a b)) as (H1 & H2).
    pose proof (Rmax_l a b). pose proof (Rmax_r a b).
    split; [lra|]. intros v [<- | Hv]; [lra|]. now apply H2.
Qed.

Lemma maximum_in (l : list R) (a : R) : In (maximum a l) (a :: l).
Proof.
  unfold maximum. revert a. induction l as [|b l IH]; intros a; simpl.
  - now left.
  - destruct (IH (Rmax a b)) as [H | H].
    + rewrite <- H. unfold Rmax. destruct (Rle_dec a b); auto.
    + right. now right.
Qed.

Lemma minimum_le (l : list R) (a : R) :
  minimum a l <= a /\ forall v, In v l -> minimum a l <= v.
Proof.
  unfold minimum. revert a. induction l as [|b l IH]; intros a; simpl.
  - split; [lra|]. intros v [].
  - destruct (IH (Rmin a b)) as (H1 & H2).
    pose proof (Rmin_l a b). pose proof (Rmin_r a b).
    split; [lra|]. intros v [<- | Hv]; [lra|]. now apply H2.
Qed.

Lemma minimum_in (l : list R) (a : R) : In (minimum a l) (a :: l).
Proof.
  unfold minimum. revert a. induction l as [|b l IH]; intros a; simpl.
  - now left.
  - destruct (IH (Rmin a b)) as [H | H].
    + rewrite <- H. unfold Rmin. destruct (Rle_dec a b); auto.
    + right. now right.
Qed.

Lemma gt_min (a b : R) : (if Js.gt a b then b else a) = Rmin a b.
Proof.
  unfold Js.gt, Rmin. destruct (Rgt_dec a b), (Rle_dec a b); lra.
Qed.

Lemma lt_max (a b : R) : (if Js.lt a b then b else a) = Rmax a b.
Proof.
  unfold Js.lt, Rmax. destruct (Rlt_dec a b), (Rle_dec a b); lra.
Qed.

Lemma extend_fields (g : Glyph.t) (tb : TextBounds.t) :
  extend g tb
  = {| TextBounds.minX := Rmin (TextBounds.minX tb) (Glyph.x g);
       TextBounds.minY := Rmin (TextBounds.minY tb) (Glyph.y g);
       TextBounds.maxX := Rmax (TextBounds.maxX tb) (Glyph.x g);
       TextBounds.maxY := Rmax (TextBounds.maxY tb) (Glyph.y g) |}.
Proof.
  destruct tb as [a b c d]. unfold extend. cbn.
  rewrite <- (gt_min a), <- (gt_min b), <- (lt_max c), <- (lt_max d).
  destruct (Js.gt a (Glyph.x g)); cbn;
    destruct (Js.lt c (Glyph.x g)); cbn;
    destruct (Js.gt b (Glyph.y g)); cbn;
    destruct (Js.lt d (Glyph.y g)); reflexivity.
Qed.

Lemma fold_extend (l : list Glyph.t) (tb : TextBounds.t) :
  fold_left (fun acc g => extend g acc) l tb
  = {| TextBounds.minX := minimum (TextBounds.minX tb) (map Glyph.x l);
       TextBounds.minY := minimum (TextBounds.minY tb) (map Glyph.y l);
       TextBounds.maxX := maximum (TextBounds.maxX tb) (map Glyph.x l);
       TextBounds.maxY := maximum (TextBounds.maxY tb) (map Glyph.y l) |}.
Proof.
  revert tb. induction l as [|g l IH]; intros tb; simpl.
  - now destruct tb.
  - rewrite IH, extend_fields. reflexivity.
Qed.

(** A loop over the indices of an array that reads only the entry of the
    current index is a fold over the array. *)
Lemma for_loop_entries {A B : Type} (f : A -> B -> B) (l : list A) (d : A)
  (init : B) :
  Js.for_loop 0 (List.length l) (fun i acc => f (nth i l d) acc) init
  = fold_left (fun acc a => f a acc) l init.
Proof.
  induction l as [|a l IH] using rev_ind; [reflexivity|].
  rewrite length_app, Nat.add_comm. simpl List.length.
  rewrite for_loop_step by lia.
  rewrite fold_left_app. simpl.
  rewrite app_nth2, Nat.sub_diag by lia. simpl. f_equal.
  rewrite <- IH. apply for_loop_ext.
  intros i acc Hi. now rewrite app_nth1 by lia.
Qed.

(** The size [updateBounds] writes.  The width is the extent of the [x] of
    the entries plus one font size.  The height is one font size plus the
    extent of the [y] of the entries and of the [x] of the first entry,
    with which [maxY] starts. *)
Lemma updateBounds_size (this this' : Shape) (oldBounds : Bounds.t)
  (text_0 : Glyph.t) (rest : list Glyph.t) :
  updateBounds this oldBounds (text_0 :: rest) = Js.Normal this' ->
  getWidth this'
  = maximum (Glyph.x text_0) (map Glyph.x rest)
    - minimum (Glyph.x text_0) (map Glyph.x rest) + getFontSize this
  /\ getHeight this'
     = maximum (Rmax (Glyph.x text_0) (Glyph.y text_0)) (map Glyph.y rest)
       - minimum (Glyph.y text_0) (map Glyph.y rest) + getFontSize this.
Proof.
  unfold updateBounds. cbv zeta.
  change (fun (i : nat) (textBounds : TextBounds.t) => ?b)
    with (fun (i : nat) (textBounds : TextBounds.t) =>
            extend (nth i (text_0 :: rest) text_0) textBounds).
  rewrite (for_loop_entries extend (text_0 :: rest) text_0).
  rewrite fold_extend. intros H. injection H as <-.
  cbn [getWidth getHeight setY setX setHeight setWidth Attrs.width
       Attrs.height TextBounds.minX TextBounds.minY TextBounds.maxX
       TextBounds.maxY].
  unfold maximum, minimum. cbn [map fold_left].
  rewrite (Rmax_left (Glyph.x text_0) (Glyph.x text_0)) by lra.
  rewrite (Rmin_left (Glyph.x text_0) (Glyph.x text_0)) by lra.
  rewrite (Rmin_left (Glyph.y text_0) (Glyph.y text_0)) by lra.
  split; reflexivity.
Qed.

(** ** Default fill *)

Lemma computeText_fill (this this' : Shape) :
  computeText this = Js.Normal this' -> Attrs.fill this' = Attrs.fill this.
Proof.
  intros H. destruct (computeText_stores _ _ H) as (_ & Hn).
  destruct (computeText_normal this Hn) as (w & h & x & y & N).
  rewrite N in H. injection H as <-. reflexivity.
Qed.

(** C10 (amended).  When the config has none of the two gradient
    colour-stop arrays, the pattern image and the fill, the fill handed to
    the shape is ['black']; a fill that is given and is not the empty string
    is kept as it is; and the fill of the constructed shape is the one
    [checkDefaultFill] returned. *)
Theorem checkDefaultFill_black_or_given (config : option Attrs.t) :
  let given := match config with Some c => c | None => Attrs.empty end in
  let fill_after := Attrs.fill (checkDefaultFill config) in
  (Attrs.fillLinearGradientColorStops given = None ->
   Attrs.fillRadialGradientColorStops given = None ->
   Attrs.fillPatternImage given = None ->
   Attrs.fill given = None ->
   fill_after = Some "black"%string)
  /\ (forall f, Attrs.fill given = Some f -> f <> EmptyString ->
       fill_after = Some f)
  /\ (forall this, constructor config = Js.Normal this ->
       Attrs.fill this = fill_after).
Proof.
  intros given fill_after. subst fill_after. unfold checkDefaultFill.
  fold given. split; [|split].
  - intros -> -> -> E. simpl. rewrite E. reflexivity.
  - intros f E Hf.
    destruct (Js.not_object (Attrs.fillLinearGradientColorStops given)
              && Js.not_object (Attrs.fillRadialGradientColorStops given)
              && Js.not_object (Attrs.fillPatternImage given)); [|exact E].
    simpl. rewrite E. destruct f; [contradiction|reflexivity].
  - intros this H. unfold constructor, Shape_super in H.
    apply computeText_fill in H. exact H.
Qed.

(** ** When the layout completes, and what it writes *)

(** When [computeText] throws and when it returns. *)
Lemma computeText_throws_iff_empty_aux (this : Shape) :
  (computeText this = Js.Throw Js.TypeError <-> getText this = EmptyString)
  /\ ((exists this', computeText this = Js.Normal this')
      <-> getText this <> EmptyString).
Proof.
  assert (Hlen : getText this <> EmptyString ->
                 (0 < String.length (getText this))%nat).
  { intros H. destruct (getText this); [contradiction|simpl; lia]. }
  split; split.
  - intros H. destruct (getText this) eqn:E; [reflexivity|].
    destruct (computeText_normal this) as (w & h & x & y & N).
    + rewrite E. simpl. lia.
    + rewrite N in H. discriminate.
  - apply computeText_empty.
  - intros (this' & H) E. rewrite (computeText_empty this E) in H.
    discriminate.
  - intros H. destruct (computeText_normal this (Hlen H))
      as (w & h & x & y & N). eauto.
Qed.

(** X1.  [computeText] throws, a TypeError, exactly when the text of the
    shape is empty; on every other shape it returns normally. *)
Theorem computeText_throws_iff_empty (this : Shape) :
  (computeText this = Js.Throw Js.TypeError <-> getText this = EmptyString)
  /\ ((exists this', computeText this = Js.Normal this')
      <-> getText this <> EmptyString).
Proof. exact (computeText_throws_iff_empty_aux this). Qed.

(** X2.  A completed layout writes the width, the height, the x, the y and
    [_computedText], and no other attribute: the text, the font, the
    curve, the fill, the rotation and the scale are as before. *)
Theorem computeText_writes_only_geometry (this this' : Shape) :
  computeText this = Js.Normal this' ->
  Attrs.rotation this' = Attrs.rotation this
  /\ Attrs.scaleX this' = Attrs.scaleX this
  /\ Attrs.scaleY this' = Attrs.scaleY this
  /\ Attrs.fill this' = Attrs.fill this
  /\ Attrs.fillLinearGradientColorStops this'
     = Attrs.fillLinearGradientColorStops this
  /\ Attrs.fillRadialGradientColorStops this'
     = Attrs.fillRadialGradientColorStops this
  /\ Attrs.fillPatternImage this' = Attrs.fillPatternImage this
  /\ Attrs.text this' = Attrs.text this
  /\ Attrs.fontFamily this' = Attrs.fontFamily this
  /\ Attrs.fontSize this' = Attrs.fontSize this
  /\ Attrs.fontStyle this' = Attrs.fontStyle this
  /\ Attrs.fontVariant this' = Attrs.fontVariant this
  /\ Attrs.showCurvePath this' = Attrs.showCurvePath this
  /\ Attrs.curveRadius this' = Attrs.curveRadius this
  /\ Attrs.curveDirection this' = Attrs.curveDirection this
  /\ (exists w h x y,
        Attrs.width this' = Some w /\ Attrs.height this' = Some h
        /\ Attrs.x this' = Some x /\ Attrs.y this' = Some y).
Proof.
  intros H. destruct (computeText_stores _ _ H) as (_ & Hn).
  destruct (computeText_normal this Hn) as (w & h & x & y & N).
  rewrite N in H. injection H as <-.
  repeat (split; [reflexivity|]). exists w, h, x, y. repeat split.
Qed.

(** The placed glyphs of a non-empty text, as a first entry and the rest. *)
Lemma curveText_cons (this : Shape) :
  (0 < String.length (getText this))%nat ->
  ComputedText.curveText (layout_of this)
  = glyph_at this 0
    :: map (glyph_at this) (seq 1 (String.length (getText this) - 1)).
Proof.
  intros Hn. cbn [layout_of ComputedText.curveText].
  destruct (String.length (getText this)) as [|m]; [lia|].
  simpl. now rewrite Nat.sub_0_r.
Qed.

(** A second layout finds the shape as the first left it. *)
Lemma computeText_twice_same_shape_aux (this this1 : Shape) :
  computeText this = Js.Normal this1 ->
  computeText this1 = Js.Normal this1.
Proof.
  intros H. destruct (computeText_stores _ _ H) as (_ & Hn).
  rewrite computeText_unfold in H.
  rewrite (curveText_cons this Hn) in H.
  set (g := glyph_at this 0) in *.
  set (rest := map (glyph_at this) _) in *.
  destruct (updateBounds_normal this (bounds_of this) (g :: rest))
    as (w & h & x & y & N); [discriminate|].
  pose proof (updateBounds_size _ _ _ _ _ N) as (Hw & Hh).
  rewrite N in H. simpl in H. injection H as <-.
  set (this1 := setAttr__computedText _ (layout_of this)).
  assert (Hn1 : (0 < String.length (getText this1))%nat) by exact Hn.
  rewrite computeText_unfold. rewrite (curveText_cons this1 Hn1).
  change (glyph_at this1 0) with g.
  change (map (glyph_at this1) _) with rest.
  destruct (updateBounds_normal this1 (bounds_of this1) (g :: rest))
    as (w' & h' & x' & y' & N'); [discriminate|].
  pose proof (updateBounds_size _ _ _ _ _ N') as (Hw' & Hh').
  pose proof (updateBounds_position _ _ _ _ N') as (Hx' & Hy').
  rewrite N'. simpl.
  change (getFontSize this1) with (getFontSize this) in Hw', Hh'.
  rewrite <- Hw in Hw'. rewrite <- Hh in Hh'.
  cbv zeta in Hx', Hy'. rewrite Hw', Hh' in Hx', Hy'.
  cbn in Hw', Hh', Hx', Hy'.
  assert (Ex : x' = x).
  { rewrite Hx'. destruct (Js.lt_attr (Attrs.curveDirection this) 0);
      unfold Rdiv; ring. }
  assert (Ey : y' = y).
  { rewrite Hy'. destruct (Js.lt_attr (Attrs.curveDirection this) 0);
      unfold Rdiv; ring. }
  clear Hx' Hy'. subst w' h' x' y'. reflexivity.
Qed.

(** X3.  Running the layout on the shape a completed layout left behind
    changes nothing at all: the size is found again, the deltas are zero and
    the position stays where it is. *)
Theorem computeText_twice_same_shape (this this1 : Shape) :
  computeText this = Js.Normal this1 ->
  computeText this1 = Js.Normal this1.
Proof. exact (computeText_twice_same_shape_aux this this1). Qed.

(** ** The placed glyphs *)

Lemma substring_tail (c : ascii) (s : string) (i : nat) :
  Js.at_index (S i) (String c s) = Js.at_index i s.
Proof. reflexivity. Qed.

Lemma at_index_head (c : ascii) (s : string) :
  Js.at_index 0 (String c s) = String c EmptyString.
Proof. unfold Js.at_index. simpl. now destruct s. Qed.

Lemma glyphs_of_string (s : string) :
  String.concat EmptyString
    (map (fun i => Js.at_index i s) (seq 0 (String.length s)))
  = s.
Proof.
  induction s as [|c s IH]; [reflexivity|].
  cbn [String.length seq map]. rewrite <- seq_shift, map_map.
  rewrite (map_ext _ (fun i => Js.at_index i s) (fun i => substring_tail c s i)).
  rewrite at_index_head.
  destruct (map (fun i => Js.at_index i s) (seq 0 (String.length s)))
    as [|a l] eqn:E.
  - simpl in IH. now rewrite <- IH.
  - cbn [String.concat]. cbn [String.concat] in IH.
    change (String c EmptyString ++ EmptyString ++ ?t)%string
      with (String c t).
    f_equal. exact IH.
Qed.

(** X4.  A completed layout places one glyph per character of the text, in
    order: the glyph strings, put end to end, spell the text. *)
Theorem computeText_glyphs_spell_text (this this' : Shape) :
  computeText this = Js.Normal this' ->
  exists layout,
    Attrs._computedText this' = Some layout
    /\ List.length (ComputedText.curveText layout)
       = String.length (getText this)
    /\ String.concat EmptyString
         (map Glyph.glyph (ComputedText.curveText layout))
       = getText this.
Proof.
  intros H. destruct (computeText_stores _ _ H) as (L & _).
  exists (layout_of this). split; [exact L|].
  split; [apply curveText_length|].
  cbn [layout_of ComputedText.curveText]. rewrite map_map.
  apply glyphs_of_string.
Qed.

(** X5.  Every placed glyph lies on the guide circle: its distance to the
    centre [(cx, cy)] of the stored curve path is the stored radius. *)
Theorem computeText_glyphs_on_circle (this this' : Shape) (i : nat)
  (g : Glyph.t) :
  computeText this = Js.Normal this' ->
  nth_error (ComputedText.curveText (layout_of this)) i = Some g ->
  let path := ComputedText.curvePath (layout_of this) in
  Attrs._computedText this' = Some (layout_of this)
  /\ (Glyph.x g - CurvePath.cx path) * (Glyph.x g - CurvePath.cx path)
     + (Glyph.y g - CurvePath.cy path) * (Glyph.y g - CurvePath.cy path)
     = CurvePath.radius path * CurvePath.radius path.
Proof.
  intros H G path. split; [apply (computeText_stores _ _ H)|].
  apply nth_error_map_seq in G. destruct G as (_ & ->).
  rewrite glyph_at_fields. subst path. cbv zeta.
  cbn [layout_of ComputedText.curvePath CurvePath.cx CurvePath.cy
       CurvePath.radius Glyph.x Glyph.y].
  set (r := Js.or_number _ 1000000).
  set (a := rotation_at this i * PI / 180).
  pose proof (sin2_cos2 a) as T. unfold Rsqr in T.
  destruct (Js.gt_attr (Attrs.curveDirection this) 0).
  - replace ((r * sin a - 0) * (r * sin a - 0)
             + (r - r * cos a - r) * (r - r * cos a - r))
      with (r * r * (sin a * sin a + cos a * cos a)) by ring.
    rewrite T. ring.
  - replace ((r * sin a - 0) * (r * sin a - 0)
             + (- r - - r * cos a - - r) * (- r - - r * cos a - - r))
      with (r * r * (sin a * sin a + cos a * cos a)) by ring.
    rewrite T. ring.
Qed.

(** X6.  The arc between the middle of the text and a glyph is as long as
    the distance between them on the straight line: the rotation of the
    glyph, times the radius, is its offset minus half the width of the
    text, with the sign of the direction. *)
Theorem computeText_arc_length (this this' : Shape) (i : nat) (g : Glyph.t) :
  computeText this = Js.Normal this' ->
  nth_error (ComputedText.curveText (layout_of this)) i = Some g ->
  let metrics := getTextMetrics this in
  let r := Js.or_number (Attrs.curveRadius this) 1000000 in
  let d := nth i (TextMetrics.xOffsets metrics) 0
           - TextMetrics.width metrics / 2 in
  Attrs._computedText this' = Some (layout_of this)
  /\ (positive (Attrs.curveDirection this) -> r * Glyph.rotation g = d)
  /\ (~ positive (Attrs.curveDirection this) -> r * Glyph.rotation g = - d).
Proof.
  intros H G metrics r d. split; [apply (computeText_stores _ _ H)|].
  apply nth_error_map_seq in G. destruct G as (_ & ->).
  rewrite glyph_at_fields. cbv zeta. cbn [Glyph.rotation].
  fold r. assert (Hr : r <> 0) by (apply or_number_neq_0; lra).
  rewrite (strict_eq_false r 0 Hr).
  pose proof PI_RGT_0 as HPI.
  unfold rotation_at. fold metrics. fold r.
  split; intros Hd.
  - apply gt_attr_true in Hd. rewrite Hd. subst d. field. lra.
  - apply gt_attr_false in Hd. rewrite Hd. subst d. field. lra.
Qed.

Lemma substring_whole (s : string) :
  String.length s = 1%nat -> Js.substring 0 1 s = s.
Proof.
  destruct s as [|c [|c' s]]; simpl; intros H; try discriminate.
  reflexivity.
Qed.

(** X7.  A text of one character is laid out as one glyph at the origin,
    not rotated, whatever the radius and the direction, and the shape gets
    the width and the height of one font size. *)
Theorem computeText_single_glyph (this : Shape) :
  String.length (getText this) = 1%nat ->
  exists this',
    computeText this = Js.Normal this'
    /\ Attrs._computedText this' = Some (layout_of this)
    /\ ComputedText.curveText (layout_of this)
       = [{| Glyph.x := 0; Glyph.y := 0; Glyph.rotation := 0;
             Glyph.glyph := getText this |}]
    /\ getWidth this' = getFontSize this
    /\ getHeight this' = getFontSize this.
Proof.
  intros H1.
  assert (G : glyph_at this 0
              = {| Glyph.x := 0; Glyph.y := 0; Glyph.rotation := 0;
                   Glyph.glyph := getText this |}).
  { rewrite glyph_at_fields. cbv zeta.
    assert (E : rotation_at this 0 = 0).
    { unfold rotation_at, getTextMetrics. cbv zeta.
      cbn [TextMetrics.width TextMetrics.xOffsets].
      rewrite H1, for_loop_done by lia. cbn [nth].
      rewrite (substring_whole _ H1). unfold Rdiv. ring. }
    rewrite E.
    rewrite strict_eq_false by (apply or_number_neq_0; lra).
    replace (0 * PI / 180) with 0 by (unfold Rdiv; ring).
    replace (- 0 * PI / 180) with 0 by (unfold Rdiv; ring).
    rewrite sin_0, cos_0.
    change (Js.at_index 0 (getText this)) with (Js.substring 0 1 (getText this)).
    rewrite (substring_whole _ H1). f_equal.
    - ring.
    - destruct (Js.gt_attr _ 0); ring.
    - destruct (Js.gt_attr _ 0); reflexivity. }
  assert (L : ComputedText.curveText (layout_of this)
              = [{| Glyph.x := 0; Glyph.y := 0; Glyph.rotation := 0;
                    Glyph.glyph := getText this |}]).
  { cbn [layout_of ComputedText.curveText]. rewrite H1. cbn [seq map].
    now rewrite G. }
  rewrite computeText_unfold, L.
  set (g := {| Glyph.x := 0; Glyph.y := 0; Glyph.rotation := 0;
               Glyph.glyph := getText this |}).
  destruct (updateBounds_normal this (bounds_of this) [g])
    as (w & h & x & y & N); [discriminate|].
  pose proof (updateBounds_size _ _ _ _ _ N) as (Hw & Hh).
  rewrite N. eexists. split; [reflexivity|]. split; [reflexivity|].
  split; [reflexivity|].
  cbn [maximum minimum map fold_left g Glyph.x Glyph.y] in Hw, Hh.
  rewrite Rmax_left in Hh by lra.
  cbn in Hw, Hh. cbn. split; lra.
Qed.

(** ** The new bounds *)

Lemma lt_attr_true (d : option R) : Js.lt_attr d 0 = true <-> negative d.
Proof.
  unfold negative. destruct d as [v|]; simpl.
  - rewrite lt_true. split.
    + intros H. exists v. auto.
    + intros (w & E & H). injection E as ->. exact H.
  - split; [discriminate|]. intros (w & E & _). discriminate.
Qed.

Lemma lt_attr_false (d : option R) : Js.lt_attr d 0 = false <-> ~ negative d.
Proof.
  rewrite <- lt_attr_true. destruct (Js.lt_attr d 0); split; intros; easy.
Qed.

Lemma maximum_Rmax (l : list R) (a b : R) :
  maximum (Rmax a b) l = Rmax a (maximum b l).
Proof.
  unfold maximum. revert b. induction l as [|c l IH]; intros b; simpl.
  - reflexivity.
  - rewrite <- IH. f_equal. symmetry. apply Rmax_assoc.
Qed.

(** What a completed [computeText] is made of. *)
Lemma computeText_inv (this this' : Shape) :
  computeText this = Js.Normal this' ->
  exists this0,
    updateBounds this (bounds_of this)
      (ComputedText.curveText (layout_of this)) = Js.Normal this0
    /\ this' = setAttr__computedText this0 (layout_of this).
Proof.
  rewrite computeText_unfold.
  destruct (updateBounds this (bounds_of this) _) as [this0|e]; simpl.
  - intros H. injection H as <-. eauto.
  - discriminate.
Qed.

(** X8.  On a non-empty array [updateBounds] returns normally and writes
    as width the extent of the [x] of the entries plus one font size: the
    extent runs from the least to the greatest [x] in the array. *)
Theorem updateBounds_width_extent (this : Shape) (oldBounds : Bounds.t)
  (text_0 : Glyph.t) (rest : list Glyph.t) :
  let text := text_0 :: rest in
  exists this' lo hi,
    updateBounds this oldBounds text = Js.Normal this'
    /\ In lo (map Glyph.x text) /\ In hi (map Glyph.x text)
    /\ (forall g, In g text -> lo <= Glyph.x g <= hi)
    /\ getWidth this' = hi - lo + getFontSize this.
Proof.
  intros text.
  destruct (updateBounds_normal this oldBounds text)
    as (w & h & x & y & N); [discriminate|].
  pose proof (updateBounds_size _ _ _ _ _ N) as (Hw & _).
  eexists. exists (minimum (Glyph.x text_0) (map Glyph.x rest)),
                  (maximum (Glyph.x text_0) (map Glyph.x rest)).
  split; [exact N|]. split; [apply minimum_in|]. split; [apply maximum_in|].
  split; [|exact Hw].
  pose proof (minimum_le (map Glyph.x rest) (Glyph.x text_0)) as (L0 & L).
  pose proof (maximum_ge (map Glyph.x rest) (Glyph.x text_0)) as (M0 & M).
  intros g [<- | Hg]; [lra|].
  specialize (L (Glyph.x g) (in_map _ _ _ Hg)).
  specialize (M (Glyph.x g) (in_map _ _ _ Hg)). lra.
Qed.

(** X9.  The height [updateBounds] writes is one font size plus the
    distance from the least [y] of the entries to the greater of the
    greatest [y] and the [x] of the first entry.  It is the extent of the
    [y] plus one font size whenever the [x] of the first entry is not above
    the greatest [y]. *)
Theorem updateBounds_height_extent (this : Shape) (oldBounds : Bounds.t)
  (text_0 : Glyph.t) (rest : list Glyph.t) :
  let text := text_0 :: rest in
  exists this' lo hi,
    updateBounds this oldBounds text = Js.Normal this'
    /\ In lo (map Glyph.y text) /\ In hi (map Glyph.y text)
    /\ (forall g, In g text -> lo <= Glyph.y g <= hi)
    /\ getHeight this' = Rmax (Glyph.x text_0) hi - lo + getFontSize this
    /\ (Glyph.x text_0 <= hi ->
        getHeight this' = hi - lo + getFontSize this).
Proof.
  intros text.
  destruct (updateBounds_normal this oldBounds text)
    as (w & h & x & y & N); [discriminate|].
  pose proof (updateBounds_size _ _ _ _ _ N) as (_ & Hh).
  rewrite maximum_Rmax in Hh.
  eexists. exists (minimum (Glyph.y text_0) (map Glyph.y rest)),
                  (maximum (Glyph.y text_0) (map Glyph.y rest)).
  split; [exact N|]. split; [apply minimum_in|]. split; [apply maximum_in|].
  split; [|split; [exact Hh|]].
  - pose proof (minimum_le (map Glyph.y rest) (Glyph.y text_0)) as (L0 & L).
    pose proof (maximum_ge (map Glyph.y rest) (Glyph.y text_0)) as (M0 & M).
    intros g [<- | Hg]; [lra|].
    specialize (L (Glyph.y g) (in_map _ _ _ Hg)).
    specialize (M (Glyph.y g) (in_map _ _ _ Hg)). lra.
  - intros Hle. rewrite Hh, Rmax_right by exact Hle. reflexivity.
Qed.

(** X10.  The width and the height a completed layout leaves are never
    below the font size. *)
Theorem computeText_size_at_least_fontSize (this this' : Shape) :
  computeText this = Js.Normal this' ->
  getFontSize this <= getWidth this' /\ getFontSize this <= getHeight this'.
Proof.
  intros H. destruct (computeText_stores _ _ H) as (_ & Hn).
  destruct (computeText_inv _ _ H) as (this0 & N & ->).
  rewrite (curveText_cons this Hn) in N.
  set (g := glyph_at this 0) in *. set (rest := map _ _) in *.
  pose proof (updateBounds_size _ _ _ _ _ N) as (Hw & Hh).
  change (getWidth (setAttr__computedText this0 _)) with (getWidth this0).
  change (getHeight (setAttr__computedText this0 _)) with (getHeight this0).
  rewrite Hw, Hh, maximum_Rmax.
  pose proof (minimum_le (map Glyph.x rest) (Glyph.x g)) as (L0 & _).
  pose proof (maximum_ge (map Glyph.x rest) (Glyph.x g)) as (M0 & _).
  pose proof (minimum_le (map Glyph.y rest) (Glyph.y g)) as (L1 & _).
  pose proof (maximum_ge (map Glyph.y rest) (Glyph.y g)) as (M1 & _).
  pose proof (Rmax_r (Glyph.x g) (maximum (Glyph.y g) (map Glyph.y rest))).
  split; lra.
Qed.

(** X11.  For a shape that is not rotated, a completed layout keeps the
    middle of the scaled box where it was horizontally; vertically it keeps
    the lower edge of the scaled box when the direction is negative, and
    the [y] of the shape otherwise. *)
Theorem computeText_unrotated_anchor (this this' : Shape) :
  getRotation this = 0 ->
  computeText this = Js.Normal this' ->
  getX this' + getWidth this' * getScaleX this / 2
  = getX this + getWidth this * getScaleX this / 2
  /\ (negative (Attrs.curveDirection this) ->
      getY this' + getHeight this' * getScaleY this
      = getY this + getHeight this * getScaleY this)
  /\ (~ negative (Attrs.curveDirection this) -> getY this' = getY this).
Proof.
  intros Hrot H. destruct (computeText_inv _ _ H) as (this0 & N & ->).
  pose proof (updateBounds_position _ _ _ _ N) as (Hx & Hy).
  change (getX (setAttr__computedText this0 _)) with (getX this0).
  change (getY (setAttr__computedText this0 _)) with (getY this0).
  change (getWidth (setAttr__computedText this0 _)) with (getWidth this0).
  change (getHeight (setAttr__computedText this0 _)) with (getHeight this0).
  cbv zeta in Hx, Hy.
  cbn [bounds_of Bounds.x Bounds.y Bounds.width Bounds.height Bounds.rotation
       Bounds.scaleX Bounds.scaleY] in Hx, Hy.
  rewrite Hrot in Hx, Hy.
  replace (0 * PI / 180) with 0 in Hx, Hy by (unfold Rdiv; ring).
  rewrite cos_0, sin_0 in Hx, Hy.
  split; [rewrite Hx; unfold Rdiv; ring|].
  split; intros Hd.
  - apply lt_attr_true in Hd. rewrite Hd in Hy. rewrite Hy.
    unfold Rdiv. ring.
  - apply lt_attr_false in Hd. rewrite Hd in Hy. rewrite Hy.
    unfold Rdiv. ring.
Qed.

(** X12.  When the direction is not negative the shape is moved by the
    horizontal delta alone, rotated by the rotation of the shape: by
    [(dx * cos t - 0 * sin t, dx * sin t + 0 * cos t)], where [dx] is half
    the difference of the old and the new scaled width and [t] the rotation
    in radians. *)
Theorem computeText_horizontal_delta_rotated (this this' : Shape) :
  ~ negative (Attrs.curveDirection this) ->
  computeText this = Js.Normal this' ->
  let dx :=
    (getWidth this * getScaleX this - getWidth this' * getScaleX this) / 2 in
  let t := getRotation this * PI / 180 in
  getX this' = getX this + (dx * cos t - 0 * sin t)
  /\ getY this' = getY this + (dx * sin t + 0 * cos t).
Proof.
  intros Hd H. destruct (computeText_inv _ _ H) as (this0 & N & ->).
  pose proof (updateBounds_position _ _ _ _ N) as (Hx & Hy).
  change (getX (setAttr__computedText this0 _)) with (getX this0).
  change (getY (setAttr__computedText this0 _)) with (getY this0).
  change (getWidth (setAttr__computedText this0 _)) with (getWidth this0).
  cbv zeta in Hx, Hy.
  cbn [bounds_of Bounds.x Bounds.y Bounds.width Bounds.height Bounds.rotation
       Bounds.scaleX Bounds.scaleY] in Hx, Hy.
  apply lt_attr_false in Hd. rewrite Hd in Hx, Hy.
  cbv zeta. rewrite Hx, Hy. split; ring.
Qed.

(** ** The offsets *)

(** The offsets of a non-empty text, entry by entry. *)
Lemma getTextMetrics_recurrence (this : Shape) :
  let text := getText this in
  let width := measureText (_getContextFont this) in
  let glyph := fun i => Js.at_index i text in
  let xOffsets := TextMetrics.xOffsets (getTextMetrics this) in
  (0 < String.length text)%nat ->
  nth 0 xOffsets 0 = width (glyph 0%nat) / 2
  /\ forall i, (1 <= i < String.length text)%nat ->
       nth i xOffsets 0
       = nth (i - 1) xOffsets 0
         + width (glyph (i - 1)%nat ++ glyph i)%string
         - width (glyph (i - 1)%nat) / 2
         - width (glyph i) / 2.
Proof.
  intros text width glyph xOffsets Hn.
  subst xOffsets. unfold getTextMetrics. cbn [TextMetrics.xOffsets].
  fold text. fold width.
  destruct (String.length text) as [|m] eqn:E; [lia|].
  set (glyphs := Js.for_loop 0 (S m) _ []).
  pose proof (for_loop_cumulative
    (fun i v =>
       v + width (Js.substring (i - 1) (i + 1) text)
       - width (nth (i - 1) glyphs EmptyString) / 2
       - width (nth i glyphs EmptyString) / 2)
    (width (Js.substring 0 1 text) / 2) m) as H.
  cbv zeta in H. destruct H as (_ & H0 & Hrec).
  split.
  - rewrite H0. now rewrite substring_first.
  - intros i Hi. rewrite Hrec by lia.
    subst glyphs. rewrite <- E.
    rewrite !glyphs_nth by lia.
    rewrite substring_pair by lia. reflexivity.
Qed.

(** X13.  The measurer returns one offset per character, and one offset
    for the empty text too: half the measured width of the empty string. *)
Theorem getTextMetrics_offsets_count (this : Shape) :
  List.length (TextMetrics.xOffsets (getTextMetrics this))
  = Nat.max 1 (String.length (getText this))
  /\ (getText this = EmptyString ->
      TextMetrics.xOffsets (getTextMetrics this)
      = [measureText (_getContextFont this) EmptyString / 2]).
Proof.
  split.
  - destruct (String.length (getText this)) as [|m] eqn:E.
    + unfold getTextMetrics. cbn [TextMetrics.xOffsets].
      rewrite E, for_loop_done by lia. reflexivity.
    + rewrite getTextMetrics_reads_in_range by lia. rewrite E. lia.
  - intros E. unfold getTextMetrics. cbn [TextMetrics.xOffsets].
    rewrite E. reflexivity.
Qed.

(** X14.  When the provider measures every pair of neighbours as the sum
    of the two glyphs (no kerning), the offset of a glyph is the width of
    all the glyphs before it plus half its own width. *)
Theorem getTextMetrics_offsets_without_kerning (this : Shape) :
  let text := getText this in
  let width := measureText (_getContextFont this) in
  let glyph := fun i => Js.at_index i text in
  let xOffsets := TextMetrics.xOffsets (getTextMetrics this) in
  (forall i, (1 <= i < String.length text)%nat ->
     width (glyph (i - 1)%nat ++ glyph i)%string
     = width (glyph (i - 1)%nat) + width (glyph i)) ->
  forall i, (i < String.length text)%nat ->
    nth i xOffsets 0
    = sum_before (fun j => width (glyph j)) i + width (glyph i) / 2.
Proof.
  intros text width glyph xOffsets Hpair i Hi.
  subst xOffsets glyph width text. cbv beta in *.
  destruct (getTextMetrics_recurrence this) as (H0 & Hrec); [lia|].
  cbv beta zeta in H0, Hrec.
  induction i as [|i IH].
  - cbn [sum_before]. rewrite H0. ring.
  - rewrite Hrec by lia. replace (S i - 1)%nat with i by lia.
    rewrite IH by lia. specialize (Hpair (S i)).
    replace (S i - 1)%nat with i in Hpair by lia.
    rewrite Hpair by lia. cbn [sum_before].
    generalize (sum_before
      (fun j => measureText (_getContextFont this)
                  (Js.at_index j (getText this))) i) as s.
    generalize (measureText (_getContextFont this)
                  (Js.at_index i (getText this))) as a.
    generalize (measureText (_getContextFont this)
                  (Js.at_index (S i) (getText this))) as b.
    intros b a s. lra.
Qed.

(** X15.  When every pair of neighbours measures at least half the sum of
    the widths of its two glyphs, the offsets never decrease from left to
    right. *)
Theorem getTextMetrics_offsets_nondecreasing (this : Shape) :
  let text := getText this in
  let width := measureText (_getContextFont this) in
  let glyph := fun i => Js.at_index i text in
  let xOffsets := TextMetrics.xOffsets (getTextMetrics this) in
  (forall i, (1 <= i < String.length text)%nat ->
     (width (glyph (i - 1)%nat) + width (glyph i)) / 2
     <= width (glyph (i - 1)%nat ++ glyph i)%string) ->
  forall i j, (i <= j < String.length text)%nat ->
    nth i xOffsets 0 <= nth j xOffsets 0.
Proof.
  intros text width glyph xOffsets Hpair i j Hij.
  subst xOffsets glyph width text. cbv beta in *.
  destruct (getTextMetrics_recurrence this) as (_ & Hrec); [lia|].
  cbv beta zeta in Hrec.
  induction j as [|j IH].
  - replace i with 0%nat by lia. lra.
  - destruct (Nat.eq_dec i (S j)) as [->|Hne]; [lra|].
    assert (Hi : nth i (TextMetrics.xOffsets (getTextMetrics this)) 0
                 <= nth j (TextMetrics.xOffsets (getTextMetrics this)) 0)
      by (apply IH; lia).
    specialize (Hrec (S j)). specialize (Hpair (S j)).
    replace (S j - 1)%nat with j in Hrec, Hpair by lia.
    rewrite Hrec by lia. specialize (Hpair ltac:(lia)). lra.
Qed.

(** ** Construction and [setText] *)

(** X16.  [checkDefaultFill] changes no key but [fill], and applying it to
    its own result changes nothing more. *)
Theorem checkDefaultFill_idempotent (config : option Attrs.t) :
  let given := match config with Some c => c | None => Attrs.empty end in
  let checked := checkDefaultFill config in
  checkDefaultFill (Some checked) = checked
  /\ Attrs.x checked = Attrs.x given
  /\ Attrs.y checked = Attrs.y given
  /\ Attrs.width checked = Attrs.width given
  /\ Attrs.height checked = Attrs.height given
  /\ Attrs.rotation checked = Attrs.rotation given
  /\ Attrs.scaleX checked = Attrs.scaleX given
  /\ Attrs.scaleY checked = Attrs.scaleY given
  /\ Attrs.fillLinearGradientColorStops checked
     = Attrs.fillLinearGradientColorStops given
  /\ Attrs.fillRadialGradientColorStops checked
     = Attrs.fillRadialGradientColorStops given
  /\ Attrs.fillPatternImage checked = Attrs.fillPatternImage given
  /\ Attrs.text checked = Attrs.text given
  /\ Attrs.fontFamily checked = Attrs.fontFamily given
  /\ Attrs.fontSize checked = Attrs.fontSize given
  /\ Attrs.fontStyle checked = Attrs.fontStyle given
  /\ Attrs.fontVariant checked = Attrs.fontVariant given
  /\ Attrs.showCurvePath checked = Attrs.showCurvePath given
  /\ Attrs.curveRadius checked = Attrs.curveRadius given
  /\ Attrs.curveDirection checked = Attrs.curveDirection given
  /\ Attrs._computedText checked = Attrs._computedText given.
Proof.
  intros given checked. subst checked. unfold checkDefaultFill. fold given.
  destruct given as [x y w h r sx sy f lin rad pat t ff fs fst fv sc cr cd ct].
  destruct lin, rad, pat; cbn; repeat split.
  destruct f as [[|c f]|]; reflexivity.
Qed.

(** X17.  Unless a gradient colour-stop array or a pattern image is
    configured, the config [checkDefaultFill] returns has a fill, and the
    fill is not the empty string. *)
Theorem checkDefaultFill_fill_present (config : option Attrs.t) :
  let given := match config with Some c => c | None => Attrs.empty end in
  Attrs.fillLinearGradientColorStops given = None ->
  Attrs.fillRadialGradientColorStops given = None ->
  Attrs.fillPatternImage given = None ->
  exists f,
    Attrs.fill (checkDefaultFill config) = Some f /\ f <> EmptyString.
Proof.
  intros given H1 H2 H3. unfold checkDefaultFill. fold given.
  rewrite H1, H2, H3. cbn.
  destruct (Attrs.fill given) as [[|c f]|]; cbn;
    eexists; (split; [reflexivity|discriminate]).
Qed.

Lemma getText_checkDefaultFill (config : option Attrs.t) :
  getText (checkDefaultFill config)
  = getText (match config with Some c => c | None => Attrs.empty end).
Proof.
  unfold checkDefaultFill.
  destruct (Js.not_object _ && Js.not_object _ && Js.not_object _);
    reflexivity.
Qed.

(** X18.  [new CurvedText(config)] throws, a TypeError, exactly when the
    config is absent or has no text or the empty text.  Otherwise the shape
    is built, with the text, the font and the curve of the config and with
    the layout of that text stored. *)
Theorem constructor_throws_iff_no_text (config : option Attrs.t) :
  let given := match config with Some c => c | None => Attrs.empty end in
  (constructor config = Js.Throw Js.TypeError
   <-> getText given = EmptyString)
  /\ (getText given <> EmptyString ->
      exists this,
        constructor config = Js.Normal this
        /\ Attrs.text this = Attrs.text given
        /\ Attrs.fontFamily this = Attrs.fontFamily given
        /\ Attrs.fontSize this = Attrs.fontSize given
        /\ Attrs.curveRadius this = Attrs.curveRadius given
        /\ Attrs.curveDirection this = Attrs.curveDirection given
        /\ Attrs._computedText this
           = Some (layout_of (checkDefaultFill config))).
Proof.
  intros given. unfold constructor, Shape_super.
  assert (T : getText (checkDefaultFill config) = getText given)
    by apply getText_checkDefaultFill.
  assert (F : Attrs.text (checkDefaultFill config) = Attrs.text given
              /\ Attrs.fontFamily (checkDefaultFill config)
                 = Attrs.fontFamily given
              /\ Attrs.fontSize (checkDefaultFill config)
                 = Attrs.fontSize given
              /\ Attrs.curveRadius (checkDefaultFill config)
                 = Attrs.curveRadius given
              /\ Attrs.curveDirection (checkDefaultFill config)
                 = Attrs.curveDirection given).
  { unfold checkDefaultFill. fold given.
    destruct (Js.not_object _ && Js.not_object _ && Js.not_object _);
      repeat split. }
  destruct (computeText_throws_iff_empty_aux (checkDefaultFill config))
    as (Hthrow & Hnormal).
  split.
  - rewrite <- T. exact Hthrow.
  - intros Hne. rewrite <- T in Hne.
    destruct (proj2 Hnormal Hne) as (this & N).
    exists this. split; [exact N|].
    destruct (computeText_stores _ _ N) as (L & Hn).
    destruct (computeText_normal _ Hn) as (w & h & x & y & N').
    rewrite N' in N. injection N as <-.
    destruct F as (F1 & F2 & F3 & F4 & F5).
    repeat split; cbn; assumption.
Qed.

Lemma append_empty (s : string) : (s ++ EmptyString)%string = s.
Proof. induction s as [|c s IH]; simpl; [reflexivity|now rewrite IH]. Qed.

(** X19.  [setText] with a string that is not empty completes and leaves
    that string as the text of the shape, with a layout of as many glyphs
    as the string has characters; calling it again with the same string
    changes nothing.  A number is laid out as the string it prints to. *)
Theorem setText_stores_text (this : Shape) (s : string) (n : R) :
  setText this (ArgNumber n) = setText this (ArgString (numberToString n))
  /\ (s <> EmptyString ->
      exists this' layout,
        setText this (ArgString s) = Js.Normal this'
        /\ getText this' = s
        /\ Attrs._computedText this' = Some layout
        /\ TextMetrics.text (ComputedText.textMetrics layout) = s
        /\ List.length (ComputedText.curveText layout) = String.length s
        /\ setText this' (ArgString s) = Js.Normal this').
Proof.
  split.
  - unfold setText. cbv zeta. now rewrite append_empty.
  - intros Hs. unfold setText. cbv zeta.
    set (this0 := _setAttr_text this s).
    assert (Hn : (0 < String.length (getText this0))%nat).
    { change (getText this0) with s. destruct s; [contradiction|simpl; lia]. }
    destruct (computeText_normal this0 Hn) as (w & h & x & y & N).
    rewrite N. cbn [Js.bind].
    set (this' := setAttr__computedText _ (layout_of this0)).
    exists this', (layout_of this0).
    split; [reflexivity|]. split; [reflexivity|]. split; [reflexivity|].
    split; [reflexivity|].
    split; [apply (curveText_length this0)|].
    change (_setAttr_text this' s) with this'.
    fold this' in N. rewrite (computeText_twice_same_shape_aux _ _ N).
    reflexivity.
Qed.

(** ** Font families *)

Lemma normalizeFontFamily_families (fontFamily : string) :
  normalizeFontFamily fontFamily
  = String.concat ", " (map normalizeFamily (split "," fontFamily)).
Proof. reflexivity. Qed.

Lemma split_cons (sep : ascii) (s : string) :
  exists w ws, split sep s = w :: ws.
Proof.
  induction s as [|c s (w & ws & IH)]; simpl; [eauto|].
  destruct (Ascii.eqb c sep); [eauto|]. rewrite IH. eauto.
Qed.

Lemma split_pieces (sep : ascii) (s piece : string) :
  In piece (split sep s) -> has_char sep piece = false.
Proof.
  revert piece. induction s as [|c s IH]; simpl; intros piece H.
  - destruct H as [<- | []]. reflexivity.
  - destruct (Ascii.eqb c sep) eqn:E.
    + destruct H as [<- | H]; [reflexivity|]. now apply IH.
    + destruct (split sep s) as [|w ws] eqn:S.
      * destruct H as [<- | []]. simpl. now rewrite E.
      * destruct H as [<- | H].
        -- simpl. rewrite E. apply IH. now left.
        -- apply IH. now right.
Qed.

Lemma split_whole (sep : ascii) (s : string) :
  has_char sep s = false -> split sep s = [s].
Proof.
  induction s as [|c s IH]; simpl; [reflexivity|].
  intros H. apply orb_false_iff in H. destruct H as (E & H).
  rewrite E, (IH H). reflexivity.
Qed.

Lemma split_append (sep : ascii) (s t : string) :
  has_char sep s = false ->
  split sep (s ++ String sep t) = s :: split sep t.
Proof.
  induction s as [|c s IH]; simpl; intros H.
  - now rewrite Ascii.eqb_refl.
  - apply orb_false_iff in H. destruct H as (E & H).
    rewrite E, (IH H). reflexivity.
Qed.

(** Splitting a list joined with [", "] gives the list back, with a space
    before every entry but the first. *)
Lemma split_concat (w : string) (ws : list string) :
  (forall piece, In piece (w :: ws) -> has_char "," piece = false) ->
  split "," (String.concat ", " (w :: ws)) = w :: map (String " ") ws.
Proof.
  revert w. induction ws as [|v ws IH]; intros w H.
  - simpl. apply split_whole. apply H. now left.
  - change (String.concat ", " (w :: v :: ws))
      with (w ++ String "," (String " " (String.concat ", " (v :: ws))))%string.
    rewrite split_append by (apply H; now left).
    cbn [split]. change (Ascii.eqb " " ",") with false. cbv iota.
    rewrite IH by (intros piece Hp; apply H; now right).
    reflexivity.
Qed.

Lemma trim_start_has_char (c : ascii) (s : string) :
  has_char c (trim_start s) = true -> has_char c s = true.
Proof.
  induction s as [|d s IH]; simpl; [easy|].
  destruct (is_white_space d); simpl; [|easy].
  intros H. rewrite (IH H). apply orb_true_r.
Qed.

Lemma trim_end_has_char (c : ascii) (s : string) :
  has_char c (trim_end s) = true -> has_char c s = true.
Proof.
  induction s as [|d s IH]; simpl; [easy|].
  destruct (trim_end s) as [|e t] eqn:E.
  - destruct (is_white_space d); simpl; [easy|].
    rewrite orb_false_r. intros ->. reflexivity.
  - simpl. intros H. apply orb_true_iff in H. destruct H as [H | H].
    + rewrite H. reflexivity.
    + rewrite IH by exact H. apply orb_true_r.
Qed.

Lemma trim_has_char (c : ascii) (s : string) :
  has_char c (trim s) = true -> has_char c s = true.
Proof.
  intros H. apply trim_start_has_char, trim_end_has_char. exact H.
Qed.

Lemma has_char_append (c : ascii) (s t : string) :
  has_char c (s ++ t) = has_char c s || has_char c t.
Proof.
  induction s as [|d s IH]; simpl; [reflexivity|].
  now rewrite IH, orb_assoc.
Qed.

Lemma trim_end_idempotent (s : string) : trim_end (trim_end s) = trim_end s.
Proof.
  induction s as [|c s IH]; simpl; [reflexivity|].
  destruct (trim_end s) as [|d t] eqn:E.
  - destruct (is_white_space c) eqn:W; simpl; [reflexivity|].
    now rewrite W.
  - change (trim_end (String c (String d t)))
      with (match trim_end (String d t) with
            | EmptyString => if is_white_space c then EmptyString
                             else String c EmptyString
            | String e u => String c (String e u)
            end).
    rewrite IH. reflexivity.
Qed.

Lemma trim_start_clean (s : string) : starts_clean (trim_start s).
Proof.
  induction s as [|c s IH]; simpl; [exact I|].
  destruct (is_white_space c) eqn:W; [exact IH|exact W].
Qed.

Lemma trim_start_of_clean (s : string) : starts_clean s -> trim_start s = s.
Proof. destruct s as [|c s]; simpl; [easy|]. now intros ->. Qed.

Lemma trim_end_clean (s : string) : starts_clean s -> starts_clean (trim_end s).
Proof.
  destruct s as [|c s]; simpl; [easy|]. intros W.
  destruct (trim_end s); [rewrite W|]; exact W.
Qed.

Lemma trim_idempotent (s : string) : trim (trim s) = trim s.
Proof.
  unfold trim.
  rewrite (trim_start_of_clean (trim_end (trim_start s)))
    by apply trim_end_clean, trim_start_clean.
  apply trim_end_idempotent.
Qed.

Lemma trim_end_closed (c : ascii) (s : string) :
  is_white_space c = false ->
  trim_end (s ++ String c EmptyString) = (s ++ String c EmptyString)%string.
Proof.
  intros W. induction s as [|d s IH]; simpl.
  - now rewrite W.
  - rewrite IH. destruct s; reflexivity.
Qed.

Lemma trim_quoted (s : string) :
  trim (String double_quote s ++ String double_quote EmptyString)
  = (String double_quote s ++ String double_quote EmptyString)%string.
Proof.
  unfold trim. rewrite trim_start_of_clean by reflexivity.
  apply (trim_end_closed double_quote (String double_quote s)). reflexivity.
Qed.

Lemma normalizeFamily_idempotent (family : string) :
  normalizeFamily (normalizeFamily family) = normalizeFamily family.
Proof.
  unfold normalizeFamily at 2 3. cbv zeta.
  destruct (has_char " " (trim family)
            && negb (has_char double_quote (trim family)
                     || has_char single_quote (trim family))) eqn:C.
  - unfold normalizeFamily. cbv zeta. rewrite trim_quoted.
    assert (Q : has_char double_quote
                  (String double_quote (trim family)
                   ++ String double_quote EmptyString) = true)
      by (cbn [append has_char]; now rewrite Ascii.eqb_refl).
    rewrite Q. cbn [orb negb]. now rewrite andb_false_r.
  - unfold normalizeFamily. cbv zeta. rewrite trim_idempotent, C.
    reflexivity.
Qed.

Lemma normalizeFamily_after_space (family : string) :
  normalizeFamily (String " " family) = normalizeFamily family.
Proof. reflexivity. Qed.

Lemma normalizeFamily_no_comma (family : string) :
  has_char "," family = false -> has_char "," (normalizeFamily family) = false.
Proof.
  intros H.
  assert (T : has_char "," (trim family) = false).
  { destruct (has_char "," (trim family)) eqn:E; [|reflexivity].
    apply trim_has_char in E. congruence. }
  unfold normalizeFamily. cbv zeta.
  destruct (has_char " " (trim family) && _); [|exact T].
  cbn [append has_char]. rewrite has_char_append, T. reflexivity.
Qed.

(** The families of a normalized list: the normalized pieces, with a space
    before each but the first. *)
Lemma split_normalizeFontFamily (fontFamily : string) :
  exists w ws,
    map normalizeFamily (split "," fontFamily) = w :: ws
    /\ split "," (normalizeFontFamily fontFamily) = w :: map (String " ") ws.
Proof.
  rewrite normalizeFontFamily_families.
  destruct (split_cons "," fontFamily) as (p & ps & S).
  exists (normalizeFamily p), (map normalizeFamily ps).
  rewrite S. split; [reflexivity|].
  cbn [map]. apply split_concat.
  intros piece Hp. change (In piece (map normalizeFamily (p :: ps))) in Hp.
  apply in_map_iff in Hp. destruct Hp as (q & <- & Hq).
  apply normalizeFamily_no_comma. apply (split_pieces "," fontFamily).
  now rewrite S.
Qed.

(** X20.  Normalizing a font family list that is already normalized
    changes nothing. *)
Theorem normalizeFontFamily_idempotent (fontFamily : string) :
  normalizeFontFamily (normalizeFontFamily fontFamily)
  = normalizeFontFamily fontFamily.
Proof.
  destruct (split_normalizeFontFamily fontFamily) as (w & ws & M & S).
  rewrite (normalizeFontFamily_families (normalizeFontFamily fontFamily)), S.
  rewrite (normalizeFontFamily_families fontFamily), M.
  f_equal. cbn [map]. rewrite map_map.
  rewrite (map_ext _ normalizeFamily normalizeFamily_after_space).
  change (map normalizeFamily (w :: ws) = w :: ws). rewrite <- M.
  rewrite map_map. apply map_ext. intros a. apply normalizeFamily_idempotent.
Qed.

(** X21.  Every family of the normalized list is trimmed, but for the one
    space the join puts before each family after the first, and has a quote
    whenever it has a space. *)
Theorem normalizeFontFamily_quotes_spaces (fontFamily family : string) :
  In family (split "," (normalizeFontFamily fontFamily)) ->
  (family = trim family \/ family = String " " (trim family))
  /\ (has_char " " (trim family) = true ->
      has_char double_quote (trim family) = true
      \/ has_char single_quote (trim family) = true).
Proof.
  intros H.
  destruct (split_normalizeFontFamily fontFamily) as (w & ws & M & S).
  rewrite S in H.
  assert (Hin : forall v, In v (w :: ws) ->
                          exists piece, v = normalizeFamily piece).
  { intros v Hv. rewrite <- M in Hv. apply in_map_iff in Hv.
    destruct Hv as (piece & <- & _). eauto. }
  assert (T : forall piece, trim (normalizeFamily piece)
                            = normalizeFamily piece).
  { intros piece. unfold normalizeFamily. cbv zeta.
    destruct (has_char " " (trim piece) && _);
      [apply trim_quoted|apply trim_idempotent]. }
  assert (N : exists piece,
            trim family = normalizeFamily piece
            /\ (family = trim family \/ family = String " " (trim family))).
  { destruct H as [<- | H].
    - destruct (Hin w (or_introl eq_refl)) as (piece & ->).
      exists piece. rewrite T. auto.
    - apply in_map_iff in H. destruct H as (v & <- & Hv).
      destruct (Hin v (or_intror Hv)) as (piece & ->).
      exists piece.
      change (trim (String " " (normalizeFamily piece)))
        with (trim (normalizeFamily piece)).
      rewrite T. auto. }
  destruct N as (piece & E & Hshape). split; [exact Hshape|].
  rewrite E. unfold normalizeFamily. cbv zeta.
  destruct (has_char " " (trim piece)
            && negb (has_char double_quote (trim piece)
                     || has_char single_quote (trim piece))) eqn:C.
  - intros _. left. cbn [append has_char]. now rewrite Ascii.eqb_refl.
  - intros Hs. rewrite Hs in C. cbn in C. apply negb_false_iff in C.
    apply orb_true_iff in C. exact C.
Qed.

(** ** Rendering *)

Lemma fold_left_calls {A : Type} (f : A -> list Canvas.Call) (l : list A)
  (context : Canvas.Context) :
  fold_left (fun context a => context ++ f a) l context
  = context ++ flat_map f l.
Proof.
  revert context. induction l as [|a l IH]; intros context; simpl.
  - now rewrite app_nil_r.
  - rewrite IH. now rewrite app_assoc.
Qed.

Lemma fold_left_same {A B : Type} (f g : B -> A -> B) (l : list A) (b : B) :
  (forall b a, f b a = g b a) -> fold_left f l b = fold_left g l b.
Proof.
  intros H. revert b. induction l as [|a l IH]; intros b; simpl.
  - reflexivity.
  - rewrite H. apply IH.
Qed.

Lemma _sceneFunc_calls (this : Shape) (_editingMode : bool)
  (context : Canvas.Context) :
  _sceneFunc this _editingMode context
  = match Attrs._computedText this with
    | None => context
    | Some computedText =>
        context ++ scene_calls this _editingMode computedText
    end.
Proof.
  unfold _sceneFunc. cbv zeta.
  destruct (Attrs._computedText this) as [computedText|]; [|reflexivity].
  unfold Canvas.call.
  rewrite (for_loop_entries
             (fun g context =>
                ((((context ++ [Canvas.save])
                   ++ [Canvas.translate
                         (getWidth this / 2 + Glyph.x g)
                         (if Js.gt_attr (Attrs.curveDirection this) 0
                          then Glyph.y g + getFontSize this / 2
                          else Glyph.y g + getHeight this
                               - getFontSize this / 2)])
                  ++ [Canvas.rotate (Glyph.rotation g)])
                 ++ [Canvas.fillText (Glyph.glyph g) 0 0])
                ++ [Canvas.restore])).
  rewrite (fold_left_same _
             (fun context g => context ++ glyph_calls this g))
    by (intros ctx g; unfold glyph_calls;
        now rewrite <- !app_assoc).
  rewrite fold_left_calls. unfold scene_calls. cbv zeta.
  destruct (strict_neq_attr (Attrs.curveRadius this) 0
            && truthy_bool (Attrs.showCurvePath this));
    repeat rewrite <- app_assoc; cbn [app]; rewrite ?app_nil_r; reflexivity.
Qed.

Lemma nesting_app (a b : list Canvas.Call) (d e : nat) :
  nesting d a = Some e -> nesting d (a ++ b) = nesting e b.
Proof.
  revert d. induction a as [|c a IH]; intros d; simpl.
  - now intros [= ->].
  - destruct c; try apply IH; destruct d; try discriminate; apply IH.
Qed.

Lemma nesting_glyphs (this : Shape) (l : list Glyph.t) (d : nat) :
  nesting d (flat_map (glyph_calls this) l) = Some d.
Proof.
  induction l as [|g l IH]; [reflexivity|]. exact IH.
Qed.

(** X22.  [_sceneFunc] only adds calls to the context, and none when no
    layout is stored.  In the calls it adds every [save] is closed by a
    [restore], and every [translate] and [rotate] is made between a [save]
    and its [restore]: the transform of the context is, in the end, the one
    it started with. *)
Theorem _sceneFunc_restores_transform (this : Shape) (_editingMode : bool)
  (context : Canvas.Context) :
  exists calls,
    _sceneFunc this _editingMode context = context ++ calls
    /\ nesting 0 calls = Some 0%nat
    /\ (Attrs._computedText this = None -> calls = []).
Proof.
  rewrite _sceneFunc_calls.
  destruct (Attrs._computedText this) as [computedText|].
  - exists (scene_calls this _editingMode computedText).
    split; [reflexivity|]. split; [|discriminate].
    unfold scene_calls. cbv zeta. cbn [app nesting].
    rewrite (nesting_app _ _ 0 0) by apply nesting_glyphs.
    destruct (strict_neq_attr _ 0 && truthy_bool _); reflexivity.
  - exists []. rewrite app_nil_r. repeat split.
Qed.

Lemma filled_texts_app (a b : list Canvas.Call) :
  filled_texts (a ++ b) = filled_texts a ++ filled_texts b.
Proof.
  induction a as [|c a IH]; [reflexivity|].
  destruct c; simpl; rewrite IH; reflexivity.
Qed.

Lemma filled_texts_glyphs (this : Shape) (l : list Glyph.t) :
  filled_texts (flat_map (glyph_calls this) l) = map Glyph.glyph l.
Proof.
  induction l as [|g l IH]; [reflexivity|]. simpl. now rewrite IH.
Qed.

(** X23.  On the shape a completed layout left behind, [_sceneFunc] draws
    with [fillText] the characters of the text, one per call and in order:
    the strings drawn, put end to end, spell the text. *)
Theorem _sceneFunc_draws_text (this this' : Shape) (_editingMode : bool)
  (context : Canvas.Context) :
  computeText this = Js.Normal this' ->
  exists calls,
    _sceneFunc this' _editingMode context = context ++ calls
    /\ List.length (filled_texts calls) = String.length (getText this)
    /\ String.concat EmptyString (filled_texts calls) = getText this.
Proof.
  intros H. destruct (computeText_stores _ _ H) as (L & _).
  rewrite _sceneFunc_calls, L.
  exists (scene_calls this' _editingMode (layout_of this)).
  split; [reflexivity|].
  assert (F : filled_texts (scene_calls this' _editingMode (layout_of this))
              = map Glyph.glyph (ComputedText.curveText (layout_of this))).
  { unfold scene_calls. cbv zeta. cbn [app filled_texts].
    rewrite filled_texts_app, filled_texts_glyphs.
    destruct (strict_neq_attr _ 0 && truthy_bool _);
      cbn [filled_texts]; now rewrite app_nil_r. }
  rewrite F. split.
  - rewrite length_map. apply curveText_length.
  - cbn [layout_of ComputedText.curveText]. rewrite map_map.
    apply glyphs_of_string.
Qed.

Lemma arcs_app (a b : list Canvas.Call) : arcs (a ++ b) = arcs a ++ arcs b.
Proof.
  induction a as [|c a IH]; [reflexivity|].
  destruct c; simpl; rewrite IH; reflexivity.
Qed.

Lemma arcs_glyphs (this : Shape) (l : list Glyph.t) :
  arcs (flat_map (glyph_calls this) l) = [].
Proof. induction l as [|g l IH]; [reflexivity|]. exact IH. Qed.

(** X24.  With a layout stored, [_sceneFunc] draws the guide, the circle of
    the stored radius and a dot of radius 3 at its centre, when
    [showCurvePath] is true and the [curveRadius] attribute is not the
    number 0, and no arc at all otherwise.  An absent [curveRadius] is not
    0: the guide is then drawn with the radius the layout fell back to. *)
Theorem _sceneFunc_guide (this : Shape) (_editingMode : bool)
  (context : Canvas.Context) (computedText : ComputedText.t) :
  Attrs._computedText this = Some computedText ->
  let path := ComputedText.curvePath computedText in
  let x := getWidth this / 2 + CurvePath.cx path in
  let y :=
    if Js.gt_attr (Attrs.curveDirection this) 0
    then CurvePath.cy path + getFontSize this / 2
    else CurvePath.cy path + getHeight this - getFontSize this / 2 in
  exists calls,
    _sceneFunc this _editingMode context = context ++ calls
    /\ (Attrs.showCurvePath this = Some true ->
        Attrs.curveRadius this <> Some 0 ->
        arcs calls
        = [Canvas.arc x y (CurvePath.radius path) 0 (PI * 2);
           Canvas.arc x y 3 0 (PI * 2)])
    /\ (Attrs.showCurvePath this <> Some true
        \/ Attrs.curveRadius this = Some 0 ->
        arcs calls = []).
Proof.
  intros L path x y. rewrite _sceneFunc_calls, L.
  exists (scene_calls this _editingMode computedText).
  split; [reflexivity|].
  unfold scene_calls. cbv zeta. cbn [app arcs].
  rewrite arcs_app, arcs_glyphs. cbn [app].
  split.
  - intros Hs Hr. rewrite Hs. cbn [truthy_bool].
    assert (E : strict_neq_attr (Attrs.curveRadius this) 0 = true).
    { unfold strict_neq_attr. destruct (Attrs.curveRadius this) as [v|];
        [|reflexivity].
      rewrite strict_eq_false; [reflexivity|]. intros ->. now apply Hr. }
    rewrite E. reflexivity.
  - intros [Hs | Hr].
    + assert (E : truthy_bool (Attrs.showCurvePath this) = false).
      { destruct (Attrs.showCurvePath this) as [[|]|];
          [now contradiction Hs|reflexivity|reflexivity]. }
      rewrite E, andb_false_r. reflexivity.
    + rewrite Hr. unfold strict_neq_attr.
      rewrite (proj2 (strict_eq_true 0 0) eq_refl). reflexivity.
Qed.

End CurvedText.

(** ** The layout on sample inputs *)

Example _getContextFont_default :
  _getContextFont print_12 (sample "A" None None None)
  = "normal normal 12px Arial"%string.
Proof. reflexivity. Qed.

Lemma gt_false (a b : R) : a <= b -> Js.gt a b = false.
Proof.
  intros H. destruct (Js.gt a b) eqn:E; [|reflexivity].
  apply gt_true in E. lra.
Qed.

Lemma lt_false (a b : R) : b <= a -> Js.lt a b = false.
Proof.
  intros H. destruct (Js.lt a b) eqn:E; [|reflexivity].
  apply lt_true in E. lra.
Qed.

Lemma or_number_zero (d : R) : Js.or_number (Some 0) d = d.
Proof.
  unfold Js.or_number. destruct (Req_dec_T 0 0); [reflexivity|contradiction].
Qed.

Lemma or_number_nonzero (v d : R) : v <> 0 -> Js.or_number (Some v) d = v.
Proof.
  intros H. unfold Js.or_number.
  destruct (Req_dec_T v 0); [contradiction|reflexivity].
Qed.

(** The metrics of ["AB"] under [monospace]. *)
Lemma monospace_AB (curveRadius curveDirection rotation : option R) :
  getTextMetrics monospace print_12
    (sample "AB" curveRadius curveDirection rotation)
  = {| TextMetrics.text := "AB";
       TextMetrics.xOffsets :=
         [10 * INR 1 / 2;
          10 * INR 1 / 2 + 10 * INR 2 - 10 * INR 1 / 2 - 10 * INR 1 / 2];
       TextMetrics.width := 10 * INR 2 |}.
Proof. reflexivity. Qed.

(** C1.  With [curveRadius] set to 0 the two glyphs of ["AB"], each 10
    wide, are laid out on the circle of radius 1000000 and are given the
    rotations [-5/1000000] and [5/1000000], not 0: the test
    [curveRadius === 0] that would force 0 is made on the radius after the
    fallback to 1000000, which is never 0. *)
Theorem flat_text_glyphs_are_rotated :
  exists this' layout,
    computeText monospace print_12 (sample "AB" (Some 0) (Some 1) None)
    = Js.Normal this'
    /\ Attrs._computedText this' = Some layout
    /\ map Glyph.rotation (ComputedText.curveText layout)
       = [- 5 / 1000000; 5 / 1000000].
Proof.
  destruct (computeText_normal monospace print_12
              (sample "AB" (Some 0) (Some 1) None)) as (w & h & x & y & N).
  { simpl. lia. }
  eexists. eexists. split; [exact N|]. split; [reflexivity|].
  cbn [layout_of ComputedText.curveText]. 
  change (String.length (getText (sample "AB" (Some 0) (Some 1) None)))
    with 2%nat.
  cbn [seq map]. rewrite !glyph_at_fields. cbv zeta. cbn [Glyph.rotation].
  unfold rotation_at. rewrite monospace_AB.
  cbn [sample Attrs.curveRadius Attrs.curveDirection TextMetrics.width
       TextMetrics.xOffsets nth Js.gt_attr].
  rewrite or_number_zero, strict_eq_false by lra.
  rewrite (proj2 (gt_true 1 0)) by lra.
  pose proof PI_RGT_0 as HPI.
  f_equal; [|f_equal]; simpl INR; field; lra.
Qed.

(** The layout of the single glyph ["A"], 10 wide: it sits at the origin,
    unrotated, whatever the radius and the direction. *)
Lemma monospace_A_glyph (curveRadius curveDirection rotation : option R) :
  glyph_at monospace print_12
    (sample "A" curveRadius curveDirection rotation) 0
  = {| Glyph.x := 0; Glyph.y := 0; Glyph.rotation := 0; Glyph.glyph := "A" |}.
Proof.
  rewrite glyph_at_fields. cbv zeta.
  set (r := Js.or_number _ 1000000).
  assert (Hr : r <> 0) by (apply or_number_neq_0; lra).
  assert (E : rotation_at monospace print_12
                (sample "A" curveRadius curveDirection rotation) 0 = 0).
  { unfold rotation_at. fold r.
    change (getTextMetrics monospace print_12
              (sample "A" curveRadius curveDirection rotation))
      with {| TextMetrics.text := "A";
              TextMetrics.xOffsets := [10 * INR 1 / 2];
              TextMetrics.width := 10 * INR 1 |}.
    pose proof PI_RGT_0 as HPI. simpl. field. lra. }
  rewrite E, strict_eq_false by exact Hr.
  replace (0 * PI / 180) with 0 by (unfold Rdiv; ring).
  replace (- 0 * PI / 180) with 0 by (unfold Rdiv; ring).
  rewrite sin_0, cos_0. f_equal.
  - ring.
  - destruct (Js.gt_attr _ 0); ring.
  - destruct (Js.gt_attr _ 0); reflexivity.
Qed.

Lemma quarter_turn : 90 * PI / 180 = PI / 2.
Proof. field. Qed.

(** C3.  A shape at the origin, of size 0, rotated by 90 degrees, with
    direction [-1], lays out the single glyph ["A"] at font size 12.  The
    new size is 12 by 12, so the deltas are [dx = -6] and [dy = -12].  The
    shape is moved to [(-12, -6)]: [updateBounds] adds
    [dx * cos t + dy * sin t] to the x.  The vector [(dx, dy)] rotated by 90
    degrees is [(12, -6)]. *)
Theorem position_delta_is_not_rotated :
  let this := sample "A" None (Some (-1)) (Some 90) in
  exists this',
    computeText monospace print_12 this = Js.Normal this'
    /\ getWidth this' = 12
    /\ getHeight this' = 12
    /\ getX this' = -12
    /\ getY this' = -6
    /\ let dx := (getWidth this * getScaleX this - 12 * getScaleX this) / 2 in
       let dy := getHeight this * getScaleY this - 12 * getScaleY this in
       let t := getRotation this * PI / 180 in
       getX this + (dx * cos t - dy * sin t) = 12
       /\ getY this + (dx * sin t + dy * cos t) = -6.
Proof.
  intros this. rewrite computeText_unfold.
  cbn [layout_of ComputedText.curveText].
  change (String.length (getText this)) with 1%nat. cbn [seq map].
  change (glyph_at monospace print_12 this 0)
    with (glyph_at monospace print_12
            (sample "A" None (Some (-1)) (Some 90)) 0).
  rewrite monospace_A_glyph.
  set (g := {| Glyph.x := 0; Glyph.y := 0; Glyph.rotation := 0;
               Glyph.glyph := "A" |}).
  destruct (updateBounds_normal this (bounds_of this) [g])
    as (w & h & x & y & N); [discriminate|].
  pose proof (updateBounds_size _ _ _ _ _ N) as (Hw & Hh).
  pose proof (updateBounds_position _ _ _ _ N) as (Hx & Hy).
  rewrite N. set (this' := setY _ y) in *.
  cbn [maximum minimum map fold_left g Glyph.x Glyph.y] in Hw, Hh.
  rewrite Rmax_left in Hh by lra.
  change (getFontSize this) with 12 in Hw, Hh.
  assert (Hw' : getWidth this' = 12) by lra.
  assert (Hh' : getHeight this' = 12) by lra.
  cbv zeta in Hx, Hy. rewrite Hw', Hh' in Hx, Hy.
  change (Js.lt_attr (Attrs.curveDirection this) 0) with (Js.lt (-1) 0)
    in Hx, Hy.
  rewrite (proj2 (lt_true (-1) 0)) in Hx, Hy by lra.
  cbn [bounds_of Bounds.x Bounds.y Bounds.width Bounds.height Bounds.rotation
       Bounds.scaleX Bounds.scaleY] in Hx, Hy.
  change (getRotation this) with 90 in *.
  change (getX this) with 0 in *. change (getY this) with 0 in *.
  change (getWidth this) with 0 in *. change (getHeight this) with 0 in *.
  change (getScaleX this) with 1 in *. change (getScaleY this) with 1 in *.
  rewrite quarter_turn, cos_PI2, sin_PI2 in Hx, Hy.
  exists (setAttr__computedText this' (layout_of monospace print_12 this)).
  split; [reflexivity|].
  change (getWidth (setAttr__computedText this' _)) with (getWidth this').
  change (getHeight (setAttr__computedText this' _)) with (getHeight this').
  change (getX (setAttr__computedText this' _)) with (getX this').
  change (getY (setAttr__computedText this' _)) with (getY this').
  cbv zeta. rewrite quarter_turn, cos_PI2, sin_PI2.
  repeat split; lra.
Qed.

(** A single placed glyph at [(5, 0)]: its bounding box has height 0, and
    [updateBounds] writes the height [5 + fontSize]. *)
Lemma updateBounds_single_glyph_height (oldBounds : Bounds.t) :
  let this := sample "A" None (Some 1) None in
  let text :=
    [{| Glyph.x := 5; Glyph.y := 0; Glyph.rotation := 0;
        Glyph.glyph := "A" |}] in
  exists this',
    updateBounds this oldBounds text = Js.Normal this'
    /\ getWidth this' = 12
    /\ getHeight this' = 17.
Proof.
  intros this text.
  destruct (updateBounds_normal this oldBounds text)
    as (w & h & x & y & N); [discriminate|].
  pose proof (updateBounds_size _ _ _ _ _ N) as (Hw & Hh).
  rewrite N. eexists. split; [reflexivity|].
  rewrite Hw, Hh. cbn [maximum minimum map fold_left Glyph.x Glyph.y].
  rewrite Rmax_left by lra. change (getFontSize this) with 12.
  split; lra.
Qed.

Lemma cos_5_2_negative : cos (5 / 2) < 0.
Proof.
  pose proof PI_4. pose proof PI2_3_2. apply cos_lt_0; lra.
Qed.

(** C4.  The text ["AB"], each glyph 10 wide, on a circle of radius 2
    with direction [-1] at font size 12: the two glyphs are placed at the
    same [y], so the bounding box of the glyph points has height 0, and the
    width written is the extent of the [x] plus the font size.  The height
    written is not the font size: it is [x - y + 12] for the [x] and [y] of
    the first glyph, above 12, because [maxY] starts from [text[0].x]. *)
Theorem height_starts_from_first_glyph_x :
  let this := sample "AB" (Some 2) (Some (-1)) None in
  exists this' layout g0 g1,
    computeText monospace print_12 this = Js.Normal this'
    /\ Attrs._computedText this' = Some layout
    /\ ComputedText.curveText layout = [g0; g1]
    /\ Glyph.y g0 = Glyph.y g1
    /\ getWidth this' = Glyph.x g1 - Glyph.x g0 + getFontSize this
    /\ getHeight this' = Glyph.x g0 - Glyph.y g0 + getFontSize this
    /\ getFontSize this < getHeight this'.
Proof.
  intros this. rewrite computeText_unfold.
  cbn [layout_of ComputedText.curveText].
  change (String.length (getText this)) with 2%nat. cbn [seq map].
  set (g0 := glyph_at monospace print_12 this 0).
  set (g1 := glyph_at monospace print_12 this 1).
  pose proof PI_RGT_0 as HPI.
  assert (A0 : rotation_at monospace print_12 this 0 * PI / 180 = - (5 / 2)).
  { unfold rotation_at, this. rewrite monospace_AB.
    cbn [sample Attrs.curveRadius TextMetrics.width TextMetrics.xOffsets nth].
    rewrite or_number_nonzero by lra. simpl INR. field. lra. }
  assert (A1 : rotation_at monospace print_12 this 1 * PI / 180 = 5 / 2).
  { unfold rotation_at, this. rewrite monospace_AB.
    cbn [sample Attrs.curveRadius TextMetrics.width TextMetrics.xOffsets nth].
    rewrite or_number_nonzero by lra. simpl INR. field. lra. }
  assert (Hd : Js.gt_attr (Attrs.curveDirection this) 0 = false)
    by (apply gt_false; lra).
  assert (Hr : Js.or_number (Attrs.curveRadius this) 1000000 = 2)
    by (apply or_number_nonzero; lra).
  assert (X0 : Glyph.x g0 = - (2 * sin (5 / 2))).
  { subst g0. rewrite glyph_at_fields. cbv zeta. cbn [Glyph.x].
    rewrite A0, Hr, sin_neg. ring. }
  assert (X1 : Glyph.x g1 = 2 * sin (5 / 2)).
  { subst g1. rewrite glyph_at_fields. cbv zeta. cbn [Glyph.x].
    rewrite A1, Hr. ring. }
  assert (Y0 : Glyph.y g0 = - 2 + 2 * cos (5 / 2)).
  { subst g0. rewrite glyph_at_fields. cbv zeta. cbn [Glyph.y].
    rewrite A0, Hr, Hd, cos_neg. ring. }
  assert (Y1 : Glyph.y g1 = - 2 + 2 * cos (5 / 2)).
  { subst g1. rewrite glyph_at_fields. cbv zeta. cbn [Glyph.y].
    rewrite A1, Hr, Hd. ring. }
  destruct (updateBounds_normal this (bounds_of this) [g0; g1])
    as (w & h & x & y & N); [discriminate|].
  pose proof (updateBounds_size _ _ _ _ _ N) as (Hw & Hh).
  rewrite N. set (this' := setY _ y) in *.
  exists (setAttr__computedText this' (layout_of monospace print_12 this)).
  exists (layout_of monospace print_12 this), g0, g1.
  split; [reflexivity|]. split; [reflexivity|]. split; [reflexivity|].
  change (getWidth (setAttr__computedText this' _)) with (getWidth this').
  change (getHeight (setAttr__computedText this' _)) with (getHeight this').
  cbn [maximum minimum map fold_left] in Hw, Hh.
  pose proof cos_5_2_negative as Hc.
  pose proof (SIN_bound (5 / 2)) as Hs.
  rewrite Hw, Hh.
  rewrite (Rmax_left (Glyph.x g0) (Glyph.y g0)) by lra.
  rewrite (Rmax_left (Glyph.x g0) (Glyph.y g1)) by lra.
  rewrite (Rmin_left (Glyph.y g0) (Glyph.y g1)) by lra.
  assert (Hsin : 0 <= sin (5 / 2)).
  { pose proof PI2_3_2. apply sin_ge_0; lra. }
  rewrite (Rmax_right (Glyph.x g0) (Glyph.x g1)) by lra.
  rewrite (Rmin_left (Glyph.x g0) (Glyph.x g1)) by lra.
  change (getFontSize this) with 12.
  repeat split; lra.
Qed.

(** C10 as stated fails: the fill [''] given with no gradient and no
    pattern is replaced by ['black'], in the config handed on and in the
    constructed shape, so a given fill is not always kept. *)
Lemma empty_fill_becomes_black :
  Attrs.fill config_empty_fill = Some EmptyString
  /\ Attrs.fill (checkDefaultFill (Some config_empty_fill))
     = Some "black"%string
  /\ (exists this,
        constructor monospace print_12 (Some config_empty_fill)
        = Js.Normal this
        /\ Attrs.fill this = Some "black"%string)
  /\ ~ (forall config f,
          Attrs.fill config = Some f ->
          Attrs.fill (checkDefaultFill (Some config)) = Some f).
Proof.
  split; [reflexivity|]. split; [reflexivity|]. split.
  - destruct (computeText_normal monospace print_12
                (Shape_super (checkDefaultFill (Some config_empty_fill))))
      as (w & h & x & y & N); [simpl; lia|].
    eexists. split; [exact N|reflexivity].
  - intros H. specialize (H config_empty_fill EmptyString eq_refl).
    discriminate H.
Qed.

(** ** Instances *)

Lemma getTextMetrics_kerning_offsets_witness :
  let this := sample "AB" (Some 100) (Some 1) None in
  let xOffsets := TextMetrics.xOffsets (getTextMetrics monospace print_12 this) in
  (0 < String.length (getText this))%nat
  /\ List.length xOffsets = 2%nat
  /\ nth 0 xOffsets 0 = monospace (_getContextFont print_12 this) "A" / 2
  /\ TextMetrics.width (getTextMetrics monospace print_12 this)
     = monospace (_getContextFont print_12 this) "AB".
Proof.
  intros this xOffsets.
  assert (Hn : (0 < String.length (getText this))%nat) by (simpl; lia).
  pose proof (getTextMetrics_kerning_offsets monospace print_12 this Hn)
    as (_ & Hlen & H0 & _ & Hw).
  split; [exact Hn|]. split; [exact Hlen|]. split; [exact H0|exact Hw].
Defined.

Lemma computeText_glyph_placement_witness :
  let this := sample "AB" (Some 100) (Some 1) None in
  (1 < String.length (getText this))%nat
  /\ exists this' layout g,
       computeText monospace print_12 this = Js.Normal this'
       /\ Attrs._computedText this' = Some layout
       /\ nth_error (ComputedText.curveText layout) 1 = Some g
       /\ CurvePath.radius (ComputedText.curvePath layout)
          = Js.or_number (Some 100) 1000000.
Proof.
  intros this.
  assert (Hi : (1 < String.length (getText this))%nat) by (simpl; lia).
  split; [exact Hi|].
  destruct (computeText_glyph_placement monospace print_12 this 1 Hi)
    as (this' & layout & g & N & L & G & _ & Hr & _).
  exists this', layout, g. repeat split; assumption.
Defined.

Lemma effective_radius_nonzero_witness :
  let this := sample "AB" (Some 0) (Some 1) None in
  Attrs.curveRadius this = Some 0
  /\ Js.or_number (Attrs.curveRadius this) 1000000 = 1000000
  /\ PI * (Js.or_number (Attrs.curveRadius this) 1000000 * 2) <> 0
  /\ exists this' layout g angleDeg,
       computeText monospace print_12 this = Js.Normal this'
       /\ Attrs._computedText this' = Some layout
       /\ CurvePath.radius (ComputedText.curvePath layout)
          = Js.or_number (Attrs.curveRadius this) 1000000
       /\ nth_error (ComputedText.curveText layout) 0 = Some g
       /\ angleDeg
            * (PI * (Js.or_number (Attrs.curveRadius this) 1000000 * 2))
          = (nth 0 (TextMetrics.xOffsets (ComputedText.textMetrics layout)) 0
             - TextMetrics.width (ComputedText.textMetrics layout) / 2) * 360
       /\ Glyph.x g
          = Js.or_number (Attrs.curveRadius this) 1000000
            * sin (angleDeg * PI / 180).
Proof.
  intros this.
  destruct (effective_radius_nonzero monospace print_12 this)
    as (_ & Hc & Hz & _ & Hl).
  split; [reflexivity|]. split; [apply Hz; right; reflexivity|].
  split; [exact Hc|].
  destruct (computeText_normal monospace print_12 this)
    as (w & h & x & y & N); [simpl; lia|].
  destruct (Hl _ N) as (layout & L & Hr & Hg).
  assert (L0 : Some (layout_of monospace print_12 this) = Some layout)
    by exact L.
  injection L0 as <-.
  destruct (Hg 0%nat (glyph_at monospace print_12 this 0))
    as (angleDeg & _ & Hq & Hx & _).
  { apply nth_error_curveText. simpl. lia. }
  eexists. eexists. exists (glyph_at monospace print_12 this 0), angleDeg.
  split; [exact N|]. split; [reflexivity|]. split; [reflexivity|].
  split; [apply nth_error_curveText; simpl; lia|].
  split; [exact Hq|exact Hx].
Defined.

Lemma computeText_idempotent_witness :
  let this := sample "AB" (Some 100) (Some 1) None in
  exists this1 this2,
    computeText monospace print_12 this = Js.Normal this1
    /\ computeText monospace print_12 this1 = Js.Normal this2
    /\ Attrs._computedText this2 = Attrs._computedText this1.
Proof.
  intros this.
  destruct (computeText_normal monospace print_12 this)
    as (w & h & x & y & N); [simpl; lia|].
  destruct (computeText_idempotent monospace print_12 this _ N)
    as (this2 & N2 & E & _).
  eexists. exists this2. split; [exact N|]. split; assumption.
Defined.

Lemma computeText_direction_mirror_witness :
  let this := sample "AB" (Some 100) None None in
  (0 < String.length (getText this))%nat
  /\ exists this1 layout1 this2 layout2,
       computeText monospace print_12 (setAttr_curveDirection this 1)
       = Js.Normal this1
       /\ Attrs._computedText this1 = Some layout1
       /\ computeText monospace print_12 (setAttr_curveDirection this (-1))
          = Js.Normal this2
       /\ Attrs._computedText this2 = Some layout2
       /\ List.length (ComputedText.curveText layout1) = 2%nat
       /\ List.length (ComputedText.curveText layout2) = 2%nat.
Proof.
  intros this.
  assert (Hn : (0 < String.length (getText this))%nat) by (simpl; lia).
  split; [exact Hn|].
  destruct (computeText_direction_mirror monospace print_12 this Hn)
    as (this1 & layout1 & this2 & layout2 & N1 & L1 & N2 & L2 & H1 & H2 & _).
  exists this1, layout1, this2, layout2. repeat split; assumption.
Defined.

Lemma checkDefaultFill_black_or_given_witness :
  Attrs.fill (checkDefaultFill (Some (sample "A" None None None)))
  = Some "black"%string
  /\ Attrs.fill (checkDefaultFill None) = Some "black"%string
  /\ Attrs.fill config_green_fill = Some "green"%string
  /\ Attrs.fill (checkDefaultFill (Some config_green_fill))
     = Some "green"%string
  /\ exists this,
       constructor monospace print_12 (Some config_green_fill)
       = Js.Normal this
       /\ Attrs.fill this = Some "green"%string.
Proof.
  split.
  { apply (proj1 (checkDefaultFill_black_or_given monospace print_12
                    (Some (sample "A" None None None)))); reflexivity. }
  split.
  { apply (proj1 (checkDefaultFill_black_or_given monospace print_12 None));
      reflexivity. }
  split; [reflexivity|].
  destruct (checkDefaultFill_black_or_given monospace print_12
              (Some config_green_fill)) as (_ & Hkeep & Hshape).
  assert (Hg : Attrs.fill (checkDefaultFill (Some config_green_fill))
               = Some "green"%string)
    by (apply Hkeep; [reflexivity|discriminate]).
  split; [exact Hg|].
  destruct (computeText_normal monospace print_12
              (Shape_super (checkDefaultFill (Some config_green_fill))))
    as (w & h & x & y & N); [simpl; lia|].
  eexists. split; [exact N|].
  rewrite (Hshape _ N). exact Hg.
Defined.

(** ** Instances of the further properties *)

Lemma sample_AB_completes :
  exists w h x y,
    computeText monospace print_12 (sample "AB" (Some 100) (Some 1) None)
    = Js.Normal
        (setAttr__computedText
           (setY (setX (setHeight (setWidth
              (sample "AB" (Some 100) (Some 1) None) w) h) x) y)
           (layout_of monospace print_12
              (sample "AB" (Some 100) (Some 1) None))).
Proof. apply computeText_normal. simpl. lia. Qed.

Lemma computeText_writes_only_geometry_witness :
  exists this',
    computeText monospace print_12 (sample "AB" (Some 100) (Some 1) None)
    = Js.Normal this'
    /\ Attrs.text this' = Some "AB"%string
    /\ Attrs.curveRadius this' = Some 100
    /\ Attrs.curveDirection this' = Some 1.
Proof.
  destruct sample_AB_completes as (w & h & x & y & N).
  pose proof (computeText_writes_only_geometry monospace print_12 _ _ N) as H.
  eexists. split; [exact N|].
  destruct H as (_ & _ & _ & _ & _ & _ & _ & Ht & _ & _ & _ & _ & _ & Hr & Hd & _).
  rewrite Ht, Hr, Hd. repeat split.
Defined.

Lemma computeText_twice_same_shape_witness :
  exists this1,
    computeText monospace print_12 (sample "AB" (Some 100) (Some 1) None)
    = Js.Normal this1
    /\ computeText monospace print_12 this1 = Js.Normal this1.
Proof.
  destruct sample_AB_completes as (w & h & x & y & N).
  eexists. split; [exact N|].
  exact (computeText_twice_same_shape monospace print_12 _ _ N).
Defined.

Lemma computeText_glyphs_spell_text_witness :
  exists this' layout,
    computeText monospace print_12 (sample "AB" (Some 100) (Some 1) None)
    = Js.Normal this'
    /\ Attrs._computedText this' = Some layout
    /\ List.length (ComputedText.curveText layout) = 2%nat
    /\ String.concat EmptyString
         (map Glyph.glyph (ComputedText.curveText layout)) = "AB"%string.
Proof.
  destruct sample_AB_completes as (w & h & x & y & N).
  destruct (computeText_glyphs_spell_text monospace print_12 _ _ N)
    as (layout & L & Hlen & Hspell).
  eexists. exists layout. split; [exact N|]. repeat split; assumption.
Defined.

Lemma computeText_glyphs_on_circle_witness :
  let this := sample "AB" (Some 100) (Some 1) None in
  exists this' g,
    computeText monospace print_12 this = Js.Normal this'
    /\ nth_error
         (ComputedText.curveText (layout_of monospace print_12 this)) 0
       = Some g
    /\ (Glyph.x g - 0) * (Glyph.x g - 0)
       + (Glyph.y g - Js.or_number (Some 100) 1000000)
         * (Glyph.y g - Js.or_number (Some 100) 1000000)
       = Js.or_number (Some 100) 1000000 * Js.or_number (Some 100) 1000000.
Proof.
  intros this.
  destruct sample_AB_completes as (w & h & x & y & N).
  assert (G : nth_error
                (ComputedText.curveText (layout_of monospace print_12 this)) 0
              = Some (glyph_at monospace print_12 this 0))
    by (apply nth_error_curveText; simpl; lia).
  destruct (computeText_glyphs_on_circle monospace print_12 _ _ _ _ N G)
    as (_ & C).
  eexists. eexists. split; [exact N|]. split; [exact G|].
  cbn [layout_of ComputedText.curvePath CurvePath.cx CurvePath.cy
       CurvePath.radius] in C.
  cbn [this sample Attrs.curveDirection Attrs.curveRadius Js.gt_attr] in C.
  rewrite (proj2 (gt_true 1 0)) in C by lra. exact C.
Defined.

Lemma computeText_arc_length_witness :
  let this := sample "AB" (Some 100) (Some 1) None in
  exists this' g,
    computeText monospace print_12 this = Js.Normal this'
    /\ nth_error
         (ComputedText.curveText (layout_of monospace print_12 this)) 0
       = Some g
    /\ Js.or_number (Some 100) 1000000 * Glyph.rotation g
       = nth 0 (TextMetrics.xOffsets (getTextMetrics monospace print_12 this)) 0
         - TextMetrics.width (getTextMetrics monospace print_12 this) / 2.
Proof.
  intros this.
  destruct sample_AB_completes as (w & h & x & y & N).
  assert (G : nth_error
                (ComputedText.curveText (layout_of monospace print_12 this)) 0
              = Some (glyph_at monospace print_12 this 0))
    by (apply nth_error_curveText; simpl; lia).
  destruct (computeText_arc_length monospace print_12 _ _ _ _ N G)
    as (_ & Hpos & _).
  eexists. eexists. split; [exact N|]. split; [exact G|].
  apply Hpos. exists 1. split; [reflexivity|lra].
Defined.

Lemma computeText_single_glyph_witness :
  let this := sample "A" (Some 100) (Some 1) None in
  String.length (getText this) = 1%nat
  /\ exists this',
       computeText monospace print_12 this = Js.Normal this'
       /\ getWidth this' = getFontSize this
       /\ getHeight this' = getFontSize this.
Proof.
  intros this. split; [reflexivity|].
  destruct (computeText_single_glyph monospace print_12 this eq_refl)
    as (this' & N & _ & _ & Hw & Hh).
  exists this'. repeat split; assumption.
Defined.

Lemma computeText_size_at_least_fontSize_witness :
  let this := sample "AB" (Some 100) (Some 1) None in
  exists this',
    computeText monospace print_12 this = Js.Normal this'
    /\ getFontSize this <= getWidth this'
    /\ getFontSize this <= getHeight this'.
Proof.
  intros this.
  destruct sample_AB_completes as (w & h & x & y & N).
  eexists. split; [exact N|].
  exact (computeText_size_at_least_fontSize monospace print_12 _ _ N).
Defined.

Lemma computeText_unrotated_anchor_witness :
  let this := sample "AB" (Some 100) (Some 1) None in
  getRotation this = 0
  /\ exists this',
       computeText monospace print_12 this = Js.Normal this'
       /\ getX this' + getWidth this' * getScaleX this / 2
          = getX this + getWidth this * getScaleX this / 2
       /\ getY this' = getY this.
Proof.
  intros this. split; [reflexivity|].
  destruct sample_AB_completes as (w & h & x & y & N).
  destruct (computeText_unrotated_anchor monospace print_12 this _ eq_refl N)
    as (Hx & _ & Hy).
  eexists. split; [exact N|]. split; [exact Hx|].
  apply Hy. intros (v & E & Hv). injection E as <-. lra.
Defined.

Lemma computeText_horizontal_delta_rotated_witness :
  let this := sample "AB" (Some 100) (Some 1) (Some 90) in
  ~ negative (Attrs.curveDirection this)
  /\ exists this',
       computeText monospace print_12 this = Js.Normal this'
       /\ getY this'
          = getY this
            + ((getWidth this * getScaleX this
                - getWidth this' * getScaleX this) / 2
               * sin (getRotation this * PI / 180)
               + 0 * cos (getRotation this * PI / 180)).
Proof.
  intros this.
  assert (Hd : ~ negative (Attrs.curveDirection this)).
  { intros (v & E & Hv). injection E as <-. lra. }
  split; [exact Hd|].
  destruct (computeText_normal monospace print_12 this)
    as (w & h & x & y & N); [simpl; lia|].
  destruct (computeText_horizontal_delta_rotated monospace print_12 _ _ Hd N)
    as (_ & Hy).
  eexists. split; [exact N|exact Hy].
Defined.

Lemma monospace_AB_no_kerning :
  let this := sample "AB" (Some 100) (Some 1) None in
  forall i, (1 <= i < String.length (getText this))%nat ->
    monospace (_getContextFont print_12 this)
      (Js.at_index (i - 1) (getText this) ++ Js.at_index i (getText this))
    = monospace (_getContextFont print_12 this)
        (Js.at_index (i - 1) (getText this))
      + monospace (_getContextFont print_12 this)
          (Js.at_index i (getText this)).
Proof.
  intros this i Hi. assert (E : i = 1%nat) by (simpl in Hi; lia).
  subst i. unfold monospace. simpl. lra.
Qed.

Lemma getTextMetrics_offsets_without_kerning_witness :
  let this := sample "AB" (Some 100) (Some 1) None in
  nth 1 (TextMetrics.xOffsets (getTextMetrics monospace print_12 this)) 0
  = 10 * INR 1 + 10 * INR 1 / 2.
Proof.
  intros this.
  assert (Hi : (1 < String.length (getText this))%nat) by (simpl; lia).
  rewrite (getTextMetrics_offsets_without_kerning monospace print_12 this
             monospace_AB_no_kerning 1 Hi).
  unfold monospace. simpl. lra.
Defined.

Lemma getTextMetrics_offsets_nondecreasing_witness :
  let this := sample "AB" (Some 100) (Some 1) None in
  nth 0 (TextMetrics.xOffsets (getTextMetrics monospace print_12 this)) 0
  <= nth 1 (TextMetrics.xOffsets (getTextMetrics monospace print_12 this)) 0.
Proof.
  intros this.
  apply (getTextMetrics_offsets_nondecreasing monospace print_12 this).
  - intros i Hi. assert (E : i = 1%nat) by (simpl in Hi; lia).
    subst i. unfold monospace. simpl. lra.
  - simpl. lia.
Defined.

Lemma checkDefaultFill_fill_present_witness :
  exists f,
    Attrs.fill (checkDefaultFill (Some (sample "A" None None None))) = Some f
    /\ f <> EmptyString.
Proof.
  exact (checkDefaultFill_fill_present (Some (sample "A" None None None))
           eq_refl eq_refl eq_refl).
Defined.

Lemma normalizeFontFamily_quotes_spaces_witness :
  let family :=
    String " " (String double_quote "Open Sans"
                  ++ String double_quote EmptyString)%string in
  In family (split "," (normalizeFontFamily "Arial,Open Sans"))
  /\ has_char " " (trim family) = true
  /\ (has_char double_quote (trim family) = true
      \/ has_char single_quote (trim family) = true).
Proof.
  intros family.
  assert (H : In family (split "," (normalizeFontFamily "Arial,Open Sans")))
    by (right; left; reflexivity).
  split; [exact H|]. split; [reflexivity|].
  apply (proj2 (normalizeFontFamily_quotes_spaces _ _ H)). reflexivity.
Defined.

Lemma _sceneFunc_draws_text_witness :
  exists this' calls,
    computeText monospace print_12 (sample "AB" (Some 100) (Some 1) None)
    = Js.Normal this'
    /\ _sceneFunc print_12 this' false [] = [] ++ calls
    /\ String.concat EmptyString (filled_texts calls) = "AB"%string.
Proof.
  destruct sample_AB_completes as (w & h & x & y & N).
  destruct (_sceneFunc_draws_text monospace print_12 _ _ false [] N)
    as (calls & S & _ & T).
  eexists. exists calls. split; [exact N|]. split; assumption.
Defined.

Lemma _sceneFunc_guide_witness :
  exists this' calls x y,
    computeText monospace print_12 config_guide = Js.Normal this'
    /\ _sceneFunc print_12 this' false [] = [] ++ calls
    /\ arcs calls
       = [Canvas.arc x y 1000000 0 (PI * 2); Canvas.arc x y 3 0 (PI * 2)].
Proof.
  destruct (computeText_normal monospace print_12 config_guide)
    as (w & h & x & y & N); [simpl; lia|].
  set (this' := setAttr__computedText _ _) in N.
  destruct (_sceneFunc_guide print_12 this' false [] _ eq_refl)
    as (calls & S & Hshown & _).
  exists this', calls. eexists. eexists.
  split; [exact N|]. split; [exact S|].
  rewrite Hshown; [reflexivity|reflexivity|discriminate].
Defined.
